(** * A shallow embedding of the lego ACME client

  The development follows the Go sources file by file:

  - [acme/jws.go]    : the signer and its pool of anti-replay nonces;
  - [acme/client.go] : the client (construction, registration, solver
    selection, the concurrent authorization fetch, [Link] header parsing);
  - package [api]    : the order service ([New], [Get], [UpdateForCSR]).

  Go strings are byte sequences and are modelled by [string]; a Go slice is
  a [list]; a Go map is a [gmap]; a Go result pair [(T, error)] is a pair
  whose second component is an [option error] ([None] is Go's [nil]).
  A run-time panic and [log.Fatal] (which exits the process) are explicit
  outcomes. *)

From Stdlib Require Import ZArith List Ascii String Lia Permutation.
From stdpp Require Import base option list strings pretty gmap.

Local Open Scope string_scope.
Local Open Scope list_scope.

(** ** The Go run time: errors, panics, process exit *)

(** [errors.New] and [fmt.Errorf] both yield an error value carrying a
  message. *)
Inductive error : Type :=
| errorString (msg : string).

Definition error_msg (e : error) : string :=
  match e with errorString m => m end.

(** How a call ends: it returns, the process exits ([log.Fatal*] calls
  [os.Exit(1)]), or the goroutine panics. *)
Inductive outcome (A : Type) : Type :=
| Ret (a : A)
| Fatal (msg : string)
| Panic (msg : string).
Arguments Ret {A} a.
Arguments Fatal {A} msg.
Arguments Panic {A} msg.

Definition index_out_of_range : string := "runtime error: index out of range".
Definition nil_dereference : string :=
  "runtime error: invalid memory address or nil pointer dereference".

(** [outcome] is a monad; the notations [x ← m; k] and [mret] are stdpp's. *)
#[global] Instance outcome_ret : MRet outcome := fun A a => Ret a.
#[global] Instance outcome_bind : MBind outcome := fun A B f m =>
  match m with
  | Ret a => f a
  | Fatal msg => Fatal msg
  | Panic msg => Panic msg
  end.

(** [s[i]] on a slice: a panic when the index is out of range. *)
Definition index {A : Type} (l : list A) (i : nat) : outcome A :=
  match l !! i with
  | Some x => Ret x
  | None => Panic index_out_of_range
  end.

(** ** Package [strings] *)

Module GoStrings.

(** [strings.Split(s, sep)] for a one-byte separator: the pieces between
    the separators, always at least one piece. *)
Fixpoint Split (s : string) (sep : ascii) : list string :=
  match s with
  | EmptyString => [EmptyString]
  | String c s' =>
      if Ascii.eqb c sep then EmptyString :: Split s' sep
      else match Split s' sep with
           | [] => [String c EmptyString]
           | p :: ps => String c p :: ps
           end
  end.

(** Does the byte occur in the string. *)
Fixpoint contains (s : string) (c : ascii) : bool :=
  match s with
  | EmptyString => false
  | String a s' => Ascii.eqb a c || contains s' c
  end.

(** Keep the bytes that satisfy [p]. *)
Fixpoint filter_bytes (p : ascii -> bool) (s : string) : string :=
  match s with
  | EmptyString => EmptyString
  | String a s' => if p a then String a (filter_bytes p s') else filter_bytes p s'
  end.

(** Do all bytes satisfy [p]. *)
Fixpoint all_bytes (p : ascii -> bool) (s : string) : bool :=
  match s with
  | EmptyString => true
  | String a s' => p a && all_bytes p s'
  end.

End GoStrings.

(** ** Package [regexp]

    The two expressions compiled in [parseLinks] use literal bytes, [.],
    one-byte repetitions ([+] and [*], both greedy), concatenation and
    capturing groups. Go's [regexp] returns the leftmost match and, among
    the matches that start there, the one a backtracking search finds first;
    the matcher below is that search, written with a continuation. *)

Module Regexp.

Inductive regex : Type :=
| One (p : ascii -> bool)          (* one byte of the class *)
| Many (p : ascii -> bool)         (* p*, as many as possible first *)
| Many1 (p : ascii -> bool)        (* p+, as many as possible first *)
| Cat (r1 r2 : regex)
| Group (n : nat) (r : regex).     (* the n-th capturing group *)

(** The double quote byte. *)
Definition dquote : ascii := "034"%char.

(** [.] matches any character except a line feed. A character of several
    bytes has no byte equal to a line feed, so matching byte by byte gives
    the same groups. *)
Definition dot (c : ascii) : bool := negb (Ascii.eqb c "010"%char).
Definition byte (a : ascii) (c : ascii) : bool := Ascii.eqb c a.

(** The part of [s] that was consumed when [rest] is what remains of it. *)
Fixpoint take_bytes (n : nat) (s : string) : string :=
  match n, s with
  | S n', String c s' => String c (take_bytes n' s')
  | _, _ => EmptyString
  end.

Definition consumed (s rest : string) : string :=
  take_bytes (String.length s - String.length rest) s.

(** Greedy repetition of a one-byte class: the longest run is tried first,
    then shorter ones. *)
Fixpoint many {R : Type} (p : ascii -> bool) (s : string)
  (k : string -> option R) : option R :=
  match s with
  | String c s' =>
      if p c then
        match many p s' k with
        | Some r => Some r
        | None => k s
        end
      else k s
  | EmptyString => k s
  end.

Fixpoint run {R : Type} (r : regex) (s : string) (caps : gmap nat string)
  (k : string -> gmap nat string -> option R) : option R :=
  match r with
  | One p =>
      match s with
      | String c s' => if p c then k s' caps else None
      | EmptyString => None
      end
  | Many p => many p s (fun rest => k rest caps)
  | Many1 p =>
      match s with
      | String c s' => if p c then many p s' (fun rest => k rest caps) else None
      | EmptyString => None
      end
  | Cat r1 r2 => run r1 s caps (fun rest caps' => run r2 rest caps' k)
  | Group n r1 =>
      run r1 s caps (fun rest caps' => k rest (<[n := consumed s rest]> caps'))
  end.

(** A match that starts at the first byte of [s]. *)
Definition match_here (r : regex) (s : string) : option (string * gmap nat string) :=
  run r s ∅ (fun rest caps => Some (consumed s rest, caps)).

(** The leftmost match. *)
Fixpoint find (r : regex) (s : string) : option (string * gmap nat string) :=
  match match_here r s with
  | Some m => Some m
  | None =>
      match s with
      | EmptyString => None
      | String _ s' => find r s'
      end
  end.

(** The highest group number of an expression. *)
Fixpoint groups (r : regex) : nat :=
  match r with
  | One _ | Many _ | Many1 _ => 0
  | Cat r1 r2 => Nat.max (groups r1) (groups r2)
  | Group n r1 => Nat.max n (groups r1)
  end.

(** [FindStringSubmatch]: the whole match followed by the text of each
    group, or [nil] when there is no match. *)
Definition FindStringSubmatch (r : regex) (s : string) : list string :=
  match find r s with
  | None => []
  | Some (whole, caps) =>
      whole :: map (fun n => default "" (caps !! n)) (seq 1 (groups r))
  end.

(** [regexp.MustCompile("[<>]")], used only through
    [ReplaceAllString(link, "")]: every [<] and [>] is deleted. *)
Definition aBrkt (c : ascii) : bool :=
  Ascii.eqb c "<"%char || Ascii.eqb c ">"%char.

Definition ReplaceAllString_empty (cls : ascii -> bool) (s : string) : string :=
  GoStrings.filter_bytes (fun c => negb (cls c)) s.

(** The second expression of [parseLinks]: a group of one or more bytes,
    optional blanks, [=], optional blanks, and a second group of one or more
    bytes between two double quotes, that is [(.+) *= *Q(.+)Q] with the
    double quote written [Q]. *)
Definition slver : regex :=
  Cat (Group 1 (Many1 dot))
 (Cat (Many (byte " "%char))
 (Cat (One (byte "="%char))
 (Cat (Many (byte " "%char))
 (Cat (One (byte dquote))
 (Cat (Group 2 (Many1 dot))
      (One (byte dquote))))))).

End Regexp.

(** ** [net/http]: the parts of a response the client reads *)

Module Http.

(** [http.Header] is [map[string][]string]. *)
Record Response : Type := mkResponse {
  StatusCode : Z;
  Header : gmap string (list string);
  Body : string
}.

(** [Header.Get]: the first value stored under the key, or the empty
    string. The keys used by the client are already in canonical form. *)
Definition Get (h : gmap string (list string)) (key : string) : string :=
  match h !! key with
  | Some (v :: _) => v
  | _ => ""
  end.

(** [resp.Header[key]]: the slice stored under the key, [nil] if none. *)
Definition Values (h : gmap string (list string)) (key : string) : list string :=
  default [] (h !! key).

Definition StatusCreated : Z := 201.
Definition StatusAccepted : Z := 202.
Definition StatusConflict : Z := 409.

End Http.

(** ** The messages of the protocol

    The declarations of the message types of package [acme] are not among
    the sources; each record below has the fields the client code reads or
    writes. *)

Module Messages.

(** Modelled from the spec: the type [identifier], a domain name with its
    type. *)
Record identifier : Type := mkIdentifier {
  id_Type : string;
  id_Value : string
}.

(** Modelled from the spec: the type [challenge], with type, token, status
    and URL. *)
Record challenge : Type := mkChallenge {
  ch_Type : string;
  ch_Status : string;
  ch_URI : string;
  ch_Token : string
}.

(** Modelled from the spec: the type [authorization], with the identifier,
    the offered challenges and the valid combinations, each of which names
    challenges by their indices. *)
Record authorization : Type := mkAuthorization {
  Identifier : identifier;
  Challenges : list challenge;
  Combinations : list (list Z)
}.

(** Modelled from the spec: the type [registrationMessage], the contacts
    sent with a registration. *)
Record registrationMessage : Type := mkRegistrationMessage {
  Contact : list string
}.

(** Modelled from the spec: the type [Registration], the account as the
    server describes it. *)
Record Registration : Type := mkRegistration {
  reg_Contact : list string;
  reg_Agreement : string
}.

(** Modelled from the spec: the type [RegistrationResource], the account
    with its resource URL and the URLs taken from the [Link] headers. *)
Record RegistrationResource : Type := mkRegistrationResource {
  reg_Body : Registration;
  URI : string;
  TosURL : string;
  NewAuthzURL : string
}.

(** Modelled from the spec: the type [authorizationResource], an
    authorization with the domain it is for. *)
Record authorizationResource : Type := mkAuthorizationResource {
  authz_Body : authorization;
  NewCertURL : string;
  Domain : string
}.

(** The zero values of Go. *)
Definition zero_identifier : identifier := mkIdentifier "" "".
Definition zero_authorization : authorization := mkAuthorization zero_identifier [] [].

End Messages.

(** ** The world the client runs in

    Sequential code runs in a state monad over the state of the process: the
    one [jws] object the client and its solvers point to, the answers the
    network will give to the next requests, and the trace of what the
    process did (log lines, key validations, requests, solver calls). *)

Module World.
Import Http Messages.

(** The fields of [rsa.PrivateKey]: modulus, public and private exponent,
    prime factors. *)
Record PrivateKey : Type := mkPrivateKey {
  key_N : Z;
  key_E : Z;
  key_D : Z;
  key_Primes : list Z
}.

(** [type jws struct { privKey *rsa.PrivateKey; nonces []string }] *)
Record jws : Type := mkJws {
  privKey : option PrivateKey;
  nonces : list string
}.

(** What the network does with a request: it answers, or the transport
    fails. *)
Inductive reply : Type :=
| Answer (resp : Response)
| Failure (err : error).

Inductive event : Type :=
| EvLog (line : string)                        (* a line written by the logger *)
| EvValidate (key : PrivateKey)                (* [Validate] on the account key *)
| EvHead (url : string)                        (* [http.Head] *)
| EvPost (url : string) (body : string)        (* [http.Post] *)
| EvSolve (solver : string) (challengeType : string) (domain : string).

Record State : Type := mkState {
  the_jws : jws;
  wire : list reply;
  trace : list event
}.

Definition M (A : Type) : Type := State -> outcome A * State.

#[global] Instance M_ret : MRet M := fun A a s => (Ret a, s).
#[global] Instance M_bind : MBind M := fun A B f m s =>
  match m s with
  | (Ret a, s') => f a s'
  | (Fatal msg, s') => (Fatal msg, s')
  | (Panic msg, s') => (Panic msg, s')
  end.

(** A pure computation that may panic, run inside the process. *)
Definition lift {A : Type} (o : outcome A) : M A := fun s => (o, s).

Definition emit (e : event) : M unit := fun s =>
  (Ret tt, {| the_jws := the_jws s; wire := wire s; trace := trace s ++ [e] |}).

(** [logger().Print], [Printf], [Println]. *)
Definition log_print (line : string) : M unit := emit (EvLog line).

(** [logger().Fatalf], [Fatalln]: the line is written, then the process
    exits. *)
Definition log_fatal {A : Type} (line : string) : M A := fun s =>
  (Fatal line, {| the_jws := the_jws s; wire := wire s; trace := trace s ++ [EvLog line] |}).

Definition get_jws : M jws := fun s => (Ret (the_jws s), s).
Definition put_jws (j : jws) : M unit := fun s =>
  (Ret tt, {| the_jws := j; wire := wire s; trace := trace s |}).

(** Dereferencing a pointer that may be [nil]. *)
Definition deref {A : Type} (p : option A) : M A :=
  match p with
  | Some a => mret a
  | None => lift (Panic nil_dereference)
  end.

(** The next answer of the network; a network that has nothing more to say
    refuses the connection. *)
Definition next_reply : M reply := fun s =>
  match wire s with
  | [] => (Ret (Failure (errorString "connection refused")), s)
  | r :: rest => (Ret r, {| the_jws := the_jws s; wire := rest; trace := trace s |})
  end.

Definition reply_result (r : reply) : option Response * option error :=
  match r with
  | Answer resp => (Some resp, None)
  | Failure err => (None, Some err)
  end.

(** [http.Head(url)] *)
Definition http_Head (url : string) : M (option Response * option error) :=
  _ ← emit (EvHead url);
  r ← next_reply;
  mret (reply_result r).

(** [http.Post(url, contentType, body)] *)
Definition http_Post (url contentType body : string) : M (option Response * option error) :=
  _ ← emit (EvPost url body);
  r ← next_reply;
  mret (reply_result r).

(** The libraries the client calls and whose code is not part of the
    repository: [crypto/rsa], [go-jose] and [encoding/json]. Each is an
    arbitrary function of its arguments. *)
Class Lib : Type := {
  (* [Validate] of an [rsa.PrivateKey] *)
  rsa_Validate : PrivateKey -> option error;
  (* [jose.NewSigner(jose.RS256, key)] *)
  jose_NewSigner : option PrivateKey -> option error;
  (* the signature over a payload and a nonce, serialized, or an error *)
  jose_seal : option PrivateKey -> string -> string -> string + error;
  (* [json.Marshal] of an authorization *)
  json_Marshal_authorization : authorization -> string + error;
  (* [json.Marshal] of a registration message *)
  json_Marshal_registrationMessage : registrationMessage -> string + error;
  (* [Decode] of a response body: what the target holds after the call, and
     the error *)
  json_Decode_Registration : string -> Registration * option error;
  json_Decode_authorization : string -> authorization * option error
}.

End World.

(** ** acme/jws.go *)

Module Jws.
Import Http World.

Definition set_nonces (j : jws) (ns : list string) : jws :=
  {| privKey := privKey j; nonces := ns |}.

(** [func (j *jws) getNonceFromResponse(resp *http.Response) error], as a
    function of the object before the call to the error and the object
    after it. *)
Definition getNonceFromResponse (j : jws) (resp : Response) : option error * jws :=
  let nonce := Get (Header resp) "Replay-Nonce" in
  if decide (nonce = "") then
    (Some (errorString "Server did not respond with a proper nonce header."), j)
  else
    (None, set_nonces j (nonces j ++ [nonce])).

(** [func (j *jws) Nonce() (string, error)]: the last element of the slice
    is returned and the slice is cut by one. *)
Definition Nonce (j : jws) : (string * option error) * jws :=
  let nonce := "" in
  if (length (nonces j) =? 0)%nat then
    ((nonce, Some (errorString "No nonce available.")), j)
  else
    ((List.last (nonces j) "", None), set_nonces j (removelast (nonces j))).

(** A method of the [jws] object run on the object of the process. *)
Definition on_jws {A : Type} (f : jws -> A * jws) : M A :=
  j ← get_jws;
  let '(a, j') := f j in
  _ ← put_jws j';
  mret a.

Section WithLib.
Context `{L : Lib}.

(** [func (j *jws) getNonce(url string) error] *)
Definition getNonce (url : string) : M (option error) :=
  '(resp, err) ← http_Head url;
  match err with
  | Some e => mret (Some e)
  | None =>
      r ← deref resp;
      on_jws (fun j => getNonceFromResponse j r)
  end.

(** Modelled from the spec: [Signer.Sign] of go-jose, whose code is not
    among the sources. The signer draws exactly one nonce from its nonce
    source (the [jws] object, set by [SetNonceSource]) and fails when the
    source fails; the signature itself is the library's. *)
Definition jose_Sign (content : string) : M (option string * option error) :=
  '(nonce, err) ← on_jws Nonce;
  match err with
  | Some e => mret (None, Some e)
  | None =>
      j ← get_jws;
      match jose_seal (privKey j) nonce content with
      | inl signed => mret (Some signed, None)
      | inr e => mret (None, Some e)
      end
  end.

(** [func (j *jws) signContent(content []byte)], returning the signed
    message or an error. *)
Definition signContent (content : string) : M (option string * option error) :=
  j ← get_jws;
  match jose_NewSigner (privKey j) with
  | Some err => mret (None, Some err)
  | None =>
      '(signed, err) ← jose_Sign content;
      match err with
      | Some e => mret (None, Some e)
      | None => mret (signed, None)
      end
  end.

(** [func (j *jws) post(url string, content []byte)], returning the
    response or an error. *)
Definition post (url : string) (content : string) : M (option Response * option error) :=
  j ← get_jws;
  err ← (if (length (nonces j) =? 0)%nat then getNonce url else mret None);
  match err with
  | Some e =>
      mret (None, Some (errorString
        ("Could not get a nonce for request: " +:+ url +:+
         String "010" (String "009" (String "009" "Error: ")) +:+ error_msg e)))
  | None =>
      '(signedContent, err) ← signContent content;
      match err with
      | Some e => mret (None, Some e)
      | None =>
          body ← deref signedContent;
          '(resp, err) ← http_Post url "application/jose+json" body;
          match err with
          | Some e => mret (None, Some e)
          | None =>
              r ← deref resp;
              _ ← on_jws (fun j => getNonceFromResponse j r);
              mret (resp, err)
          end
      end
  end.

End WithLib.
End Jws.

(** ** acme/client.go *)

Module Client.
Import Http Messages World Jws GoStrings Regexp.

(** [type User interface]: the three getters, as the values they return. *)
Record User : Type := mkUser {
  GetEmail : string;
  GetRegistration : option RegistrationResource;
  GetPrivateKey : option PrivateKey
}.

(** [type solver interface { CanSolve() bool; Solve(challenge, domain) }]:
    an implementation is known by its name; [Solve] is an effect on the
    world. *)
Record solver : Type := mkSolver {
  solver_name : string;
  CanSolve : bool
}.

Definition Solve (s : solver) (ch : challenge) (domain : string) : M unit :=
  emit (EvSolve (solver_name s) (ch_Type ch) domain).

(** [type Client struct]; the field [jws] points to the [jws] object of the
    process. *)
Record Client : Type := mkClient {
  regURL : string;
  user : User;
  Solvers : gmap string solver
}.

(** [m[key]] on a [map[string]string]: the empty string when the key is
    absent. *)
Definition map_get (m : gmap string string) (key : string) : string :=
  default "" (m !! key).

(** The body of the loop of [parseLinks] for one header value. *)
Definition parseLink (linkMap : gmap string string) (link : string)
  : outcome (gmap string string) :=
  let link := ReplaceAllString_empty aBrkt link in
  let parts := Split link ";"%char in
  part1 ← index parts 1;
  let matches := FindStringSubmatch slver part1 in
  if (0 <? length matches)%nat then
    key ← index matches 2;
    part0 ← index parts 0;
    mret (<[key := part0]> linkMap)
  else mret linkMap.

Fixpoint parseLinks_from (linkMap : gmap string string) (links : list string)
  : outcome (gmap string string) :=
  match links with
  | [] => Ret linkMap
  | link :: rest =>
      linkMap' ← parseLink linkMap link;
      parseLinks_from linkMap' rest
  end.

(** [func parseLinks(links []string) map[string]string] *)
Definition parseLinks (links : list string) : outcome (gmap string string) :=
  parseLinks_from ∅ links.

Section WithLib.
Context `{L : Lib}.

(** [func NewClient(caURL string, usr User, optPort string) *Client].
    The map of solvers built in the body is a local variable that the
    returned client does not get: its [Solvers] field is the nil map. *)
Definition NewClient (caURL : string) (usr : User) (optPort : string) : M Client :=
  key ← deref (GetPrivateKey usr);
  _ ← emit (EvValidate key);
  _ ← match rsa_Validate key with
      | Some err =>
          log_fatal ("Could not validate the private account key of "
                     +:+ GetEmail usr +:+ " -> " +:+ error_msg err)
      | None => mret tt
      end;
  _ ← put_jws {| privKey := GetPrivateKey usr; nonces := [] |};
  let solvers : gmap string solver :=
    <["dvsni" := mkSolver "dvsni" true]>
      (<["simpleHttp" := mkSolver "simpleHttp" true]> ∅) in
  mret {| regURL := caURL; user := usr; Solvers := ∅ |}.

(** [func (c *Client) Register()], returning the registration resource or an
    error. *)
Definition Register (c : Client) : M (option RegistrationResource * option error) :=
  _ ← log_print "Registering account ... ";
  match json_Marshal_registrationMessage
          {| Contact := ["mailto:" +:+ GetEmail (user c)] |} with
  | inr err => mret (None, Some err)
  | inl jsonBytes =>
      '(resp, err) ← post (regURL c) jsonBytes;
      match err with
      | Some e => mret (None, Some e)
      | None =>
          resp ← deref resp;
          if decide (StatusCode resp = StatusConflict) then
            mret (None, Some (errorString
                    "This account is already registered with this CA."))
          else
            let '(serverReg, err) := json_Decode_Registration (Body resp) in
            match err with
            | Some e => mret (None, Some e)
            | None =>
                links ← lift (parseLinks (Values (Header resp) "Link"));
                let uri := Get (Header resp) "Location" in
                let tos :=
                  if decide (map_get links "terms-of-service" = "") then ""
                  else map_get links "terms-of-service" in
                if decide (map_get links "next" = "") then
                  mret (None, Some (errorString
                    "The server did not return enough information to proceed..."))
                else
                  mret (Some {| reg_Body := serverReg; URI := uri; TosURL := tos;
                                NewAuthzURL := map_get links "next" |}, None)
            end
      end
  end.

End WithLib.

(** The inner loop of [chooseSolvers]: [i] runs over the positions
    [0 .. len(combination)-1] of the combination ([for i := range
    combination]), and [auth.Challenges[i]] is read at that position. *)
Fixpoint combination_solvers (c : Client) (auth : authorization)
  (positions : list nat) (solvers : gmap nat solver) : outcome (gmap nat solver) :=
  match positions with
  | [] => Ret solvers
  | i :: rest =>
      ch ← index (Challenges auth) i;
      match Solvers c !! ch_Type ch with
      | Some s => combination_solvers c auth rest (<[i := s]> solvers)
      | None => combination_solvers c auth rest solvers
      end
  end.

Fixpoint chooseSolvers_from (c : Client) (auth : authorization)
  (combinations : list (list Z)) : outcome (option (gmap nat solver)) :=
  match combinations with
  | [] => Ret None
  | combination :: rest =>
      solvers ← combination_solvers c auth (seq 0 (length combination)) ∅;
      if (size solvers =? length combination)%nat then Ret (Some solvers)
      else chooseSolvers_from c auth rest
  end.

(** [func (c *Client) chooseSolvers(auth authorization) map[int]solver];
    [None] is the nil map. *)
Definition chooseSolvers (c : Client) (auth : authorization)
  : outcome (option (gmap nat solver)) :=
  chooseSolvers_from c auth (Combinations auth).

(** The loop over the chosen solvers; Go visits a map in an order of its
    own, here the order of [map_to_list]. *)
Fixpoint solve_each (authz : authorizationResource) (solvers : list (nat * solver))
  : M unit :=
  match solvers with
  | [] => mret tt
  | (i, s) :: rest =>
      ch ← lift (index (Challenges (authz_Body authz)) i);
      _ ← Solve s ch (Domain authz);
      solve_each authz rest
  end.

(** [func (c *Client) solveChallenges(challenges []*authorizationResource) error] *)
Fixpoint solveChallenges (c : Client) (challenges : list authorizationResource)
  : M (option error) :=
  match challenges with
  | [] => mret None
  | authz :: rest =>
      solvers ← lift (chooseSolvers c (authz_Body authz));
      match solvers with
      | Some solvers =>
          _ ← solve_each authz (map_to_list solvers);
          solveChallenges c rest
      | None =>
          mret (Some (errorString
                  ("Could not determine solvers for " +:+ Domain authz)))
      end
  end.

(** *** The concurrent fetch of the authorizations

    [getChallenges] starts one goroutine per domain, receives
    [len(domains)] messages from two unbuffered channels and then closes
    the channels. A goroutine is modelled by the sequence of things it does
    that the rest of the process can see, in program order: it sends a
    message on [resc] or [errc], it exits the process ([Fatalln]), or it
    panics. *)

Inductive message : Type :=
| OnResc (res : authorizationResource)
| OnErrc (err : error).

Inductive action : Type :=
| Send (m : message)
| Exit (line : string)
| Crash (msg : string).

(** The order in which the actions of the goroutines happen. The schedule
    names the goroutine that acts next (a goroutine that has ended, or a
    number that names none, is passed over); when the schedule is used up
    the goroutines act one after the other in the order they were
    started. Every interleaving is the result of some schedule. *)
Fixpoint interleave (sched : list nat) (tasks : list (list action)) : list action :=
  match sched with
  | [] => concat tasks
  | k :: sched' =>
      match tasks !! k with
      | Some (a :: acts) => a :: interleave sched' (<[k := acts]> tasks)
      | _ => interleave sched' tasks
      end
  end.

(** The receiving loop: [n] more messages are awaited while the goroutines
    do [acts]. A result is appended to [responses], an error is written to
    the log. If the main goroutine still waits when every goroutine has
    ended, the Go run time stops the process. The loop ends with the [n]-th
    message; what the goroutines have not done by then is returned beside
    the responses. *)
Fixpoint receive (acts : list action) (n : nat)
  (responses : list authorizationResource)
  : M (list authorizationResource * list action) :=
  match n with
  | O => mret (responses, acts)
  | S n' =>
      match acts with
      | [] => log_fatal "fatal error: all goroutines are asleep - deadlock!"
      | Send (OnResc res) :: acts' => receive acts' n' (responses ++ [res])
      | Send (OnErrc err) :: acts' =>
          _ ← log_print (error_msg err);
          receive acts' n' responses
      | Exit line :: _ => log_fatal line
      | Crash msg :: _ => lift (Panic msg)
      end
  end.

(** The panic of a goroutine that sends on a channel that is closed, or that
    waits to send when the channel is closed. *)
Definition send_on_closed_channel : string := "send on closed channel".

(** [close(resc)] and [close(errc)] after the loop, with the goroutines that
    have not ended: [pending] is what they still do. No message is received
    any more, so the next of these actions ends the process: a send finds
    its channel closed and panics, [Fatalln] exits, a panic crashes. The
    program fixes no order between that action and what the main goroutine
    does after the loop; it is placed here, at the close, so that a call
    that returns is one that no goroutine it started cuts short. *)
Definition close_channels (pending : list action) : M unit :=
  match pending with
  | [] => mret tt
  | Send _ :: _ => lift (Panic send_on_closed_channel)
  | Exit line :: _ => log_fatal line
  | Crash msg :: _ => lift (Panic msg)
  end.

Section Concurrent.
Context `{L : Lib}.

(** The body of the goroutine started for [domain]. What [c.jws.post]
    returns to it is an input, [posted url body]: the goroutines call it
    concurrently on the shared signer and the program fixes no order among
    their requests. After the test of the status code there is no [return],
    and none after a failed decoding. *)
Definition goroutine (posted : string -> string -> option Response * option error)
  (c : Client) (domain : string) : list action :=
  match json_Marshal_authorization
          {| Identifier := {| id_Type := "dns"; id_Value := domain |};
             Challenges := []; Combinations := [] |} with
  | inr err => [Send (OnErrc err)]
  | inl jsonBytes =>
      match GetRegistration (user c) with
      | None => [Crash nil_dereference]
      | Some reg =>
          match posted (NewAuthzURL reg) jsonBytes with
          | (_, Some err) => [Send (OnErrc err)]
          | (None, None) => [Crash nil_dereference]
          | (Some resp, None) =>
              (if decide (StatusCode resp = StatusCreated) then []
               else
                 [Send (OnErrc (errorString
                    ("Getting challenges for " +:+ domain
                     +:+ " failed. Got status " +:+ pretty (StatusCode resp)
                     +:+ " but expected " +:+ pretty StatusCreated)))])
              ++
              match parseLinks (Values (Header resp) "Link") with
              | Panic msg | Fatal msg => [Crash msg]
              | Ret links =>
                  if decide (map_get links "next" = "") then
                    [Exit "The server did not provide enough information to proceed."]
                  else
                    let '(authz, err) := json_Decode_authorization (Body resp) in
                    match err with
                    | Some e => [Send (OnErrc e)]
                    | None => []
                    end
                    ++
                    [Send (OnResc {| authz_Body := authz;
                                     NewCertURL := map_get links "next";
                                     Domain := domain |})]
              end
          end
      end
  end.

(** [func (c *Client) getChallenges(domains []string) []*authorizationResource] *)
Definition getChallenges (posted : string -> string -> option Response * option error)
  (sched : list nat) (c : Client) (domains : list string)
  : M (list authorizationResource) :=
  let tasks := map (goroutine posted c) domains in
  '(responses, pending) ← receive (interleave sched tasks) (length domains) [];
  _ ← close_channels pending;
  mret responses.

(** [func (c *Client) ObtainCertificates(domains []string) error]: the
    result of [solveChallenges] is not looked at. *)
Definition ObtainCertificates (posted : string -> string -> option Response * option error)
  (sched : list nat) (c : Client) (domains : list string) : M (option error) :=
  challenges ← getChallenges posted sched c domains;
  _ ← solveChallenges c challenges;
  mret None.

End Concurrent.

End Client.

(** ** [encoding/base64]: [RawURLEncoding.EncodeToString]

    The URL-safe alphabet of RFC 4648, without padding: three bytes give four
    digits of six bits; a last group of one or two bytes gives two or three
    digits. *)

Module Base64.

Definition encodeURL : string :=
  "ABCDEFGHIJKLMNOPQRSTUVWXYZabcdefghijklmnopqrstuvwxyz0123456789-_".

Definition digit (v : N) : ascii :=
  default "000"%char (String.get (N.to_nat (N.land v 63)) encodeURL).

Definition b (a : ascii) : N := N_of_ascii a.

Fixpoint RawURLEncoding_EncodeToString (src : string) : string :=
  match src with
  | String a0 (String a1 (String a2 rest)) =>
      let val := N.lor (N.lor (N.shiftl (b a0) 16) (N.shiftl (b a1) 8)) (b a2) in
      String (digit (N.shiftr val 18))
     (String (digit (N.shiftr val 12))
     (String (digit (N.shiftr val 6))
     (String (digit val)
             (RawURLEncoding_EncodeToString rest))))
  | String a0 (String a1 EmptyString) =>
      let val := N.lor (N.shiftl (b a0) 16) (N.shiftl (b a1) 8) in
      String (digit (N.shiftr val 18))
     (String (digit (N.shiftr val 12))
     (String (digit (N.shiftr val 6)) EmptyString))
  | String a0 EmptyString =>
      let val := N.shiftl (b a0) 16 in
      String (digit (N.shiftr val 18))
     (String (digit (N.shiftr val 12)) EmptyString)
  | EmptyString => EmptyString
  end.

End Base64.

(** ** Package [api]: the order service *)

Module Api.
Import Http.

(** Modelled from the spec: the type [acme.Identifier], which is not among
    the sources. *)
Record Identifier : Type := mkIdentifier {
  Type_ : string;
  Value : string
}.

(** Modelled from the spec: the type [acme.ProblemDetails], the problem
    detail a server supplies, which is not among the sources. *)
Record ProblemDetails : Type := mkProblemDetails {
  problem_Type : string;
  Detail : string;
  HTTPStatus : Z
}.

(** Modelled from the spec: the type [acme.Order], which is not among the
    sources: a status, the identifiers, the problem when the server reports
    one, and the authorization, finalize and certificate URLs. *)
Record Order : Type := mkOrder {
  Status : string;
  Identifiers : list Identifier;
  Error : option ProblemDetails;
  Authorizations : list string;
  Finalize : string;
  Certificate : string
}.

(** Modelled from the spec: the type [acme.ExtendedOrder], an order with
    its resource URL, which is not among the sources. *)
Record ExtendedOrder : Type := mkExtendedOrder {
  order : Order;
  Location : string
}.

(** Modelled from the spec: the type [acme.CSRMessage], which is not among
    the sources. *)
Record CSRMessage : Type := mkCSRMessage {
  Csr : string
}.

(** Modelled from the spec: the constants [acme.StatusInvalid] and
    [acme.StatusValid], two of the order statuses. *)
Definition StatusInvalid : string := "invalid".
Definition StatusValid : string := "valid".

(** The zero values [acme.Order{}] and [acme.ExtendedOrder{}]. *)
Definition zero_Order : Order := mkOrder "" [] None [] "" "".
Definition zero_ExtendedOrder : ExtendedOrder := mkExtendedOrder zero_Order "".

(** A Go [error] returned by the service: an error made by [errors.New] or
    returned by the core, or the pointer [order.Error] (a [ProblemDetails],
    possibly the nil pointer) seen as an error. *)
Inductive apiError : Type :=
| PlainError (err : error)
| ProblemError (problem : option ProblemDetails).

Inductive payload : Type :=
| OrderPayload (o : Order)
| CSRPayload (m : CSRMessage)
| NoPayload.

(** What the server does with one request: it answers with a response whose
    body decodes to an order, or the request fails. *)
Inductive coreReply : Type :=
| CoreAnswer (resp : Response) (decoded : Order)
| CoreFailure (err : error).

(** Modelled from the spec: [o.core], whose code ([post], [postAsGet],
    [GetDirectory]) is not among the sources. A request is sent once, never
    retried, and the response is decoded into the target; [sent] records the
    requests in order and [answers] is what the server will answer next. *)
Record Core : Type := mkCore {
  NewOrderURL : string;
  sent : list (string * payload);
  answers : list coreReply
}.

(** Modelled from the spec: [o.core.post(uri, reqBody, &response)], whose
    code is not among the sources, with [response] holding [target] before
    the call. One request is sent and not retried. The result is the
    response or an error, then what [response] holds after the call, then
    the core. *)
Definition core_post (uri : string) (reqBody : payload) (target : Order) (core : Core)
  : (option Response * option error) * Order * Core :=
  let sent' := sent core ++ [(uri, reqBody)] in
  match answers core with
  | [] =>
      ((None, Some (errorString "connection refused")), target,
       {| NewOrderURL := NewOrderURL core; sent := sent'; answers := [] |})
  | CoreAnswer resp decoded :: rest =>
      ((Some resp, None), decoded,
       {| NewOrderURL := NewOrderURL core; sent := sent'; answers := rest |})
  | CoreFailure err :: rest =>
      ((None, Some err), target,
       {| NewOrderURL := NewOrderURL core; sent := sent'; answers := rest |})
  end.

(** Modelled from the spec: [o.core.postAsGet(uri, &response)], a post of
    the empty payload. *)
Definition core_postAsGet (uri : string) (target : Order) (core : Core)
  : (option Response * option error) * Order * Core :=
  core_post uri NoPayload target core.

(** The loop of [New]: one identifier is appended per domain. *)
Fixpoint append_identifiers (identifiers : list Identifier) (domains : list string)
  : list Identifier :=
  match domains with
  | [] => identifiers
  | domain :: rest =>
      append_identifiers (identifiers ++ [{| Type_ := "dns"; Value := domain |}]) rest
  end.

(** [func (o *OrderService) New(domains []string) (acme.ExtendedOrder, error)] *)
Definition New (domains : list string) (core : Core)
  : (ExtendedOrder * option apiError) * Core :=
  let identifiers := append_identifiers [] domains in
  let orderReq :=
    {| Status := ""; Identifiers := identifiers; Error := None;
       Authorizations := []; Finalize := ""; Certificate := "" |} in
  let '(resp, err, order, core') :=
    core_post (NewOrderURL core) (OrderPayload orderReq) zero_Order core in
  match err with
  | Some e => ((zero_ExtendedOrder, Some (PlainError e)), core')
  | None =>
      (({| order := order;
           Location := match resp with
                       | Some r => Http.Get (Header r) "Location"
                       | None => ""
                       end |}, None), core')
  end.

(** [func (o *OrderService) Get(orderURL string) (acme.ExtendedOrder, error)] *)
Definition Get (orderURL : string) (core : Core)
  : (ExtendedOrder * option apiError) * Core :=
  if (String.length orderURL =? 0)%nat then
    ((zero_ExtendedOrder, Some (PlainError (errorString "order[get]: empty URL"))), core)
  else
    let '(_, err, order, core') := core_postAsGet orderURL zero_Order core in
    match err with
    | Some e => ((zero_ExtendedOrder, Some (PlainError e)), core')
    | None => (({| order := order; Location := "" |}, None), core')
    end.

(** [func (o *OrderService) UpdateForCSR(orderURL string, csr []byte)
    (acme.ExtendedOrder, error)] *)
Definition UpdateForCSR (orderURL : string) (csr : string) (core : Core)
  : (ExtendedOrder * option apiError) * Core :=
  let csrMsg := {| Csr := Base64.RawURLEncoding_EncodeToString csr |} in
  let '(_, err, order, core') :=
    core_post orderURL (CSRPayload csrMsg) zero_Order core in
  match err with
  | Some e => ((zero_ExtendedOrder, Some (PlainError e)), core')
  | None =>
      if decide (Status order = StatusInvalid) then
        ((zero_ExtendedOrder, Some (ProblemError (Error order))), core')
      else
        (({| order := order; Location := "" |}, None), core')
  end.

End Api.


(** ** Vocabulary of the statements

    Definitions used to state the properties below: concrete libraries and
    worlds for the examples, and the notions the specification uses that the
    code has no name for. *)

Module Spec.
Import Http Messages World Jws Client GoStrings Regexp.

(** Libraries for the examples: every key is valid, every signature is the
    payload followed by the nonce, JSON is an opaque text. *)
Definition demo_lib : Lib := {|
  rsa_Validate := fun _ => None;
  jose_NewSigner := fun _ => None;
  jose_seal := fun _ nonce content => inl (content +:+ "." +:+ nonce);
  json_Marshal_authorization := fun a => inl (id_Value (Identifier a));
  json_Marshal_registrationMessage := fun m => inl (String.concat "," (Contact m));
  json_Decode_Registration := fun body => (mkRegistration [body] "", None);
  json_Decode_authorization := fun body => (zero_authorization, None)
|}.

(** The same libraries with a [Validate] that rejects every key. *)
Definition strict_lib : Lib := {|
  rsa_Validate := fun _ => Some (errorString "crypto/rsa: invalid modulus");
  jose_NewSigner := fun _ => None;
  jose_seal := fun _ nonce content => inl (content +:+ "." +:+ nonce);
  json_Marshal_authorization := fun a => inl (id_Value (Identifier a));
  json_Marshal_registrationMessage := fun m => inl (String.concat "," (Contact m));
  json_Decode_Registration := fun body => (mkRegistration [body] "", None);
  json_Decode_authorization := fun body => (zero_authorization, None)
|}.

Definition demo_key : PrivateKey := mkPrivateKey 3233 17 2753 [61%Z; 53%Z].
Definition demo_user : User := mkUser "admin@example.com" None (Some demo_key).
Definition demo_client : Client := mkClient "https://ca.example/new-reg" demo_user ∅.

(** A response with one value per header. *)
Definition response (status : Z) (headers : list (string * string)) (body : string)
  : Response :=
  mkResponse status (list_to_map (map (fun kv => (kv.1, [kv.2])) headers)) body.

Definition fresh (replies : list reply) : State :=
  mkState (mkJws (Some demo_key) []) replies [].

(** A combination is covered when it names only challenges that exist and
    a solver is registered for the type of each of them. *)
Definition covered (c : Client) (auth : authorization) (combination : list Z) : bool :=
  forallb (fun idx =>
             match (if (0 <=? idx)%Z then Challenges auth !! Z.to_nat idx else None) with
             | Some ch => bool_decide (is_Some (Solvers c !! ch_Type ch))
             | None => false
             end) combination.

Definition a_challenge (type : string) : challenge := mkChallenge type "pending" "" "".

(** The identifiers of the order requests sent so far. *)
Definition requested (core : Api.Core) : list (list Api.Identifier) :=
  omap (fun req => match req.2 with
                   | Api.OrderPayload o => Some (Api.Identifiers o)
                   | _ => None
                   end) (Api.sent core).

(** The identifier of type dns for a domain, and a problem as a server
    reports it. *)
Definition dns (domain : string) : Api.Identifier :=
  {| Api.Type_ := "dns"; Api.Value := domain |}.

Definition problem_bad_csr : Api.ProblemDetails :=
  Api.mkProblemDetails "urn:ietf:params:acme:error:badCSR" "CSR is not acceptable" 400.

(** What the receiving loop makes of the messages that arrived: the results
    it returns and the errors it writes to the log. *)
Definition results (msgs : list message) : list authorizationResource :=
  omap (fun m => match m with OnResc res => Some res | OnErrc _ => None end) msgs.

Definition failures (msgs : list message) : list error :=
  omap (fun m => match m with OnErrc err => Some err | OnResc _ => None end) msgs.

Definition logged (s : State) (errs : list error) : State :=
  {| the_jws := the_jws s; wire := wire s;
     trace := trace s ++ map (fun e => EvLog (error_msg e)) errs |}.

(** A header value for one relation: the URL between angle brackets, then
    [;rel=] and the relation name between double quotes. *)
Definition quoted (s : string) : string := String dquote (s +:+ String dquote EmptyString).
Definition link_value (url name : string) : string :=
  "<" +:+ url +:+ ">;rel=" +:+ quoted name.

(** A registered user, and a network on which the request for
    [a.example.com] fails and every other one is answered with 201 and a
    [next] link. *)
Definition registered_client : Client :=
  mkClient "https://ca.example/new-reg"
    (mkUser "admin@example.com"
       (Some (mkRegistrationResource (mkRegistration [] "") "https://ca.example/reg/1"
                "" "https://ca.example/new-authz"))
       (Some demo_key)) ∅.

Definition demo_posted (url body : string) : option Response * option error :=
  if String.eqb body "a.example.com" then
    (None, Some (errorString "dial tcp: connection refused"))
  else
    (Some (response 201 [("Link", link_value "https://ca.example/new-cert" "next")] "{}"),
     None).








(** How often a byte occurs in a string. *)
Fixpoint count_byte (c : ascii) (s : string) : nat :=
  match s with
  | EmptyString => 0
  | String a s' => (if Ascii.eqb a c then 1 else 0) + count_byte c s'
  end.


(** The part of the expression after the first group. *)
Definition slver_tail : regex :=
  Cat (Many (byte " "%char))
 (Cat (One (byte "="%char))
 (Cat (Many (byte " "%char))
 (Cat (One (byte dquote))
 (Cat (Group 2 (Many1 dot))
      (One (byte dquote)))))).

(** How often the account key was validated, and how many requests went to
    the network, according to a trace. *)
Definition is_validate (e : event) : bool :=
  match e with EvValidate _ => true | _ => false end.

Definition is_request (e : event) : bool :=
  match e with EvHead _ | EvPost _ _ => true | _ => false end.

Definition validations (tr : list event) : nat := length (List.filter is_validate tr).
Definition requests (tr : list event) : nat := length (List.filter is_request tr).

(** A computation that validates no key, from whatever state it starts. *)
Definition validates_nothing {A : Type} (m : M A) : Prop :=
  forall s, validations (trace (m s).2) = validations (trace s).

End Spec.

(** ** acme/client.go: the agreement to the terms of service *)

Module Agreement.
Import Http Messages World Jws Client.

(** What [AgreeToTos] and the two logging helpers need beyond [Lib]:
    [json.Marshal] of a registration, and the status line of a response
    ([resp.Status]), which the record [Response] does not hold. *)
Class TosLib : Type := {
  json_Marshal_Registration : Registration -> string + error;
  resp_Status : Response -> string
}.

(** [%s] of a [[]string]: the elements between brackets, separated by
    blanks. *)
Definition fmt_strings (vs : list string) : string :=
  "[" +:+ String.concat " " vs +:+ "]".

Fixpoint log_headers (headers : list (string * list string)) : M unit :=
  match headers with
  | [] => mret tt
  | (k, v) :: rest =>
      _ ← log_print ("-- " +:+ k +:+ ": " +:+ fmt_strings v);
      log_headers rest
  end.

(** [func logResponseBody(resp *http.Response)]: the body is a stream that
    [ioutil.ReadAll] reads to its end, so the response is left with an
    empty body. *)
Definition logResponseBody (resp : Response) : M Response :=
  _ ← log_print ("Returned json data: " +:+ String "010" (Body resp));
  mret {| StatusCode := StatusCode resp; Header := Header resp; Body := "" |}.

(** The assignment [c.user.GetRegistration().Body.Agreement =
    c.user.GetRegistration().TosURL] on the registration the user holds. *)
Definition agree (reg : RegistrationResource) : RegistrationResource :=
  {| reg_Body := {| reg_Contact := reg_Contact (reg_Body reg);
                    reg_Agreement := TosURL reg |};
     URI := URI reg; TosURL := TosURL reg; NewAuthzURL := NewAuthzURL reg |}.

Definition with_registration (c : Client) (reg : RegistrationResource) : Client :=
  {| regURL := regURL c;
     user := {| GetEmail := GetEmail (user c);
                GetRegistration := Some reg;
                GetPrivateKey := GetPrivateKey (user c) |};
     Solvers := Solvers c |}.

Section WithLib.
Context `{L : Lib} `{T : TosLib}.

(** [func logResponseHeaders(resp *http.Response)]; Go visits the header map
    in an order of its own, here the order of [map_to_list]. *)
Definition logResponseHeaders (resp : Response) : M unit :=
  _ ← log_print (resp_Status resp);
  log_headers (map_to_list (Header resp)).

(** [func (c *Client) AgreeToTos() error]. The registration is reached
    through a pointer, so the assignment stays whatever happens next: the
    client is returned with the registration as the call left it. *)
Definition AgreeToTos (c : Client) : M (option error * Client) :=
  reg ← deref (GetRegistration (user c));
  let reg := agree reg in
  let c := with_registration c reg in
  match json_Marshal_Registration (reg_Body reg) with
  | inr err => mret (Some err, c)
  | inl jsonBytes =>
      _ ← log_print ("Agreement: " +:+ jsonBytes);
      '(resp, err) ← post (URI reg) jsonBytes;
      match err with
      | Some e => mret (Some e, c)
      | None =>
          resp ← deref resp;
          resp ← logResponseBody resp;
          if decide (StatusCode resp = StatusAccepted) then
            _ ← logResponseHeaders resp;
            _ ← logResponseBody resp;
            mret (None, c)
          else
            mret (Some (errorString
                    ("The server returned " +:+ pretty (StatusCode resp)
                     +:+ " but we expected " +:+ pretty StatusAccepted)), c)
      end
  end.

End WithLib.
End Agreement.

(** ** acme/dns_challenge_route53.go *)

Module Route53.

(** The types of the goamz library the provider uses, with the fields it
    reads or writes. *)
Record Auth : Type := mkAuth {
  AccessKey : string;
  SecretKey : string;
  Token : string
}.

Record HostedZone : Type := mkHostedZone {
  ID : string;
  Name : string
}.

Record ResourceRecordSet : Type := mkResourceRecordSet {
  rr_Name : string;
  rr_Type : string;
  rr_Records : list string;
  rr_TTL : Z
}.

Record Change : Type := mkChange {
  Action : string;
  Record_ : ResourceRecordSet
}.

Record ChangeResourceRecordSetsRequest : Type := mkChangeRequest {
  Comment : string;
  Changes : list Change
}.

(** The Route 53 client, [route53.New(auth, region)], together with the
    service behind it. Every call of the client is a request to the
    service, and the service may answer each differently: [listings] are
    the answers to the calls of [ListHostedZones] still to come, one per
    call, and [verdicts] the answers to the change requests still to come
    (no error: the change was accepted). A call for which no answer is left
    fails, as when the network is down. [submitted] are the change requests
    sent so far, each with the zone it was sent to. *)
Record Route53 : Type := mkRoute53 {
  client_auth : Auth;
  client_region : string;
  listings : list (list HostedZone + error);
  verdicts : list (option error);
  submitted : list (string * ChangeResourceRecordSetsRequest)
}.

(** [type DNSProviderRoute53 struct { client *route53.Route53 }] *)
Record DNSProviderRoute53 : Type := mkDNSProviderRoute53 {
  client : Route53
}.

Definition network_down : error := errorString "connection refused".

(** [ListHostedZones] of the client: one request; the zones of the answer,
    or an error. *)
Definition ListHostedZones (r : Route53) : (list HostedZone + error) * Route53 :=
  match listings r with
  | [] => (inr network_down, r)
  | answer :: rest =>
      (answer,
       {| client_auth := client_auth r; client_region := client_region r;
          listings := rest; verdicts := verdicts r; submitted := submitted r |})
  end.

(** [ChangeResourceRecordSets(zone, req)]: the request is sent; the service
    accepts or refuses it. *)
Definition ChangeResourceRecordSets (r : Route53) (zone : string)
  (req : ChangeResourceRecordSetsRequest) : option error * Route53 :=
  (match verdicts r with
   | [] => Some network_down
   | verdict :: _ => verdict
   end,
   {| client_auth := client_auth r; client_region := client_region r;
      listings := listings r; verdicts := tail (verdicts r);
      submitted := submitted r ++ [(zone, req)] |}).

(** [strings.HasSuffix(s, suffix)]: [s] is at least as long as [suffix] and
    its last bytes are those of [suffix]. *)
Fixpoint drop_bytes (n : nat) (s : string) : string :=
  match n, s with
  | S n', String _ s' => drop_bytes n' s'
  | _, _ => s
  end.

Definition HasSuffix (s suffix : string) : bool :=
  (String.length suffix <=? String.length s)%nat &&
  String.eqb (drop_bytes (String.length s - String.length suffix) s) suffix.

(** The zero value [route53.HostedZone{}]. *)
Definition zero_HostedZone : HostedZone := mkHostedZone "" "".

(** [func NewDNSProviderRoute53(awsAccessKey, awsSecretKey, awsRegionName
    string)]: [regions] is the table [aws.Regions], [envAuth] is what
    [aws.EnvAuth()] returns, and [connect] is [route53.New]. *)
Definition NewDNSProviderRoute53 (regions : gmap string string)
  (envAuth : Auth + error) (connect : Auth -> string -> Route53)
  (awsAccessKey awsSecretKey awsRegionName : string)
  : option DNSProviderRoute53 * option error :=
  match regions !! awsRegionName with
  | None => (None, Some (errorString ("Invalid AWS region name " +:+ awsRegionName)))
  | Some region =>
      if negb (String.eqb awsAccessKey "") && negb (String.eqb awsSecretKey "") then
        (Some {| client := connect (mkAuth awsAccessKey awsSecretKey "") region |}, None)
      else
        match envAuth with
        | inr _ => (None, Some (errorString "AWS credentials missing"))
        | inl auth => (Some {| client := connect auth region |}, None)
        end
  end.

(** [func newTXTRecordSet(fqdn, value string, ttl int) route53.ResourceRecordSet] *)
Definition newTXTRecordSet (fqdn value : string) (ttl : Z) : ResourceRecordSet :=
  {| rr_Name := fqdn; rr_Type := "TXT"; rr_Records := [value]; rr_TTL := ttl |}.

(** The loop of [getHostedZoneID]: [hostedZone] is the zone kept so far. *)
Fixpoint longest_zone (fqdn : string) (zones : list HostedZone)
  (hostedZone : HostedZone) : HostedZone :=
  match zones with
  | [] => hostedZone
  | zone :: rest =>
      longest_zone fqdn rest
        (if HasSuffix fqdn (Name zone) then
           if (String.length (Name hostedZone) <? String.length (Name zone))%nat
           then zone else hostedZone
         else hostedZone)
  end.

(** [func (r *DNSProviderRoute53) getHostedZoneID(fqdn string) (string, error)]:
    each call lists the zones anew. *)
Definition getHostedZoneID (r : DNSProviderRoute53) (fqdn : string)
  : (string * option error) * DNSProviderRoute53 :=
  let '(zoneResp, client') := ListHostedZones (client r) in
  let r' := {| client := client' |} in
  match zoneResp with
  | inr err => (("", Some err), r')
  | inl zones =>
      let hostedZone := longest_zone fqdn zones zero_HostedZone in
      if String.eqb (ID hostedZone) "" then
        (("", Some (errorString ("No Route53 zone found for domain " +:+ fqdn))), r')
      else ((ID hostedZone, None), r')
  end.

(** [func (r *DNSProviderRoute53) changeRecord(action, fqdn, value string,
    ttl int) error] *)
Definition changeRecord (r : DNSProviderRoute53) (action fqdn value : string) (ttl : Z)
  : option error * DNSProviderRoute53 :=
  let '((hostedZoneID, err), r') := getHostedZoneID r fqdn in
  match err with
  | Some e => (Some e, r')
  | None =>
      let recordSet := newTXTRecordSet fqdn value ttl in
      let update := {| Action := action; Record_ := recordSet |} in
      let changes := [update] in
      let req := {| Comment := "Created by Lego"; Changes := changes |} in
      let '(err, client') := ChangeResourceRecordSets (client r') hostedZoneID req in
      (err, {| client := client' |})
  end.

(** [func (r *DNSProviderRoute53) CreateTXTRecord(fqdn, value string, ttl int) error] *)
Definition CreateTXTRecord (r : DNSProviderRoute53) (fqdn value : string) (ttl : Z)
  : option error * DNSProviderRoute53 :=
  changeRecord r "UPSERT" fqdn value ttl.

(** [func (r *DNSProviderRoute53) RemoveTXTRecord(fqdn, value string, ttl int) error] *)
Definition RemoveTXTRecord (r : DNSProviderRoute53) (fqdn value : string) (ttl : Z)
  : option error * DNSProviderRoute53 :=
  changeRecord r "DELETE" fqdn value ttl.

End Route53.

(** ** Further vocabulary

    Notions and example worlds used by the properties of the code beside
    the ones above. *)

Module Vocabulary.
Import Http Messages World Jws Client GoStrings Regexp Spec Agreement.

(** The pool is empty and the probe for a nonce will not bring one: the
    network fails, or it answers without a [Replay-Nonce] value. *)
Definition head_gives_no_nonce (s : State) : bool :=
  match wire s with
  | Answer resp :: _ => bool_decide (Get (Header resp) "Replay-Nonce" = "")
  | _ => true
  end.



(** The solver the client has for the challenge at position [i], if the
    challenge exists and a solver is registered for its type. *)
Definition solver_at (c : Client) (auth : authorization) (i : nat) : option solver :=
  match Challenges auth !! i with
  | Some ch => Solvers c !! ch_Type ch
  | None => None
  end.

(** A solver exists for each of the first [n] challenges. *)
Definition positions_covered (c : Client) (auth : authorization) (n : nat) : bool :=
  forallb (fun i => bool_decide (is_Some (solver_at c auth i))) (seq 0 n).



(** The bytes of the URL-safe base64 alphabet. *)
Definition url_safe (c : ascii) : bool := contains Base64.encodeURL c.


(** The zone is one the provider may pick for the name: its own name is
    not empty and ends the name. *)
Definition serves (fqdn : string) (zone : Route53.HostedZone) : bool :=
  Route53.HasSuffix fqdn (Route53.Name zone) && negb (String.eqb (Route53.Name zone) "").

(** The request [changeRecord] builds: one change of a TXT record with one
    value. *)
Definition txt_change (action fqdn value : string) (ttl : Z)
  : Route53.ChangeResourceRecordSetsRequest :=
  {| Route53.Comment := "Created by Lego";
     Route53.Changes := [{| Route53.Action := action;
                    Route53.Record_ := {| Route53.rr_Name := fqdn; Route53.rr_Type := "TXT";
                                  Route53.rr_Records := [value]; Route53.rr_TTL := ttl |} |}] |}.


(** Example worlds. *)
Definition demo_tos : TosLib := {|
  json_Marshal_Registration := fun r => inl (reg_Agreement r);
  resp_Status := fun resp => pretty (StatusCode resp)
|}.

Definition one_solver_client : Client :=
  mkClient "" demo_user {["simpleHttp" := mkSolver "simpleHttp" true]}.

Definition two_challenges (combinations : list (list Z)) : authorization :=
  mkAuthorization (mkIdentifier "dns" "example.com")
    [a_challenge "simpleHttp"; a_challenge "dvsni"] combinations.

Definition posted_forbidden (url body : string) : option Response * option error :=
  (Some (response 403 [] "forbidden"), None).

Definition posted_without_link (url body : string) : option Response * option error :=
  (Some (response 201 [] "{}"), None).

Definition demo_zones : list Route53.HostedZone :=
  [Route53.mkHostedZone "Z1" "example.com.";
   Route53.mkHostedZone "Z2" "sub.example.com.";
   Route53.mkHostedZone "Z3" "example.org."].

(** A provider whose service answers every listing in the list and accepts
    two changes. *)
Definition demo_provider (answers : list (list Route53.HostedZone))
  : Route53.DNSProviderRoute53 :=
  Route53.mkDNSProviderRoute53
    (Route53.mkRoute53 (Route53.mkAuth "AKIAEXAMPLE" "secret" "") "us-east-1"
       (map inl answers) [None; None] []).

(** The zones after [sub.example.com.] was delegated and removed from the
    account. *)
Definition later_zones : list Route53.HostedZone :=
  [Route53.mkHostedZone "Z1" "example.com.";
   Route53.mkHostedZone "Z3" "example.org."].

(** The nonce of a response, as [getNonceFromResponse] reads it. *)
Definition nonce_of (resp : Response) : string := Get (Header resp) "Replay-Nonce".

(** The nonces a response brings: its nonce, or none when that is empty. *)
Definition carried (resp : Response) : list string :=
  if decide (nonce_of resp = "") then [] else [nonce_of resp].

(** The object after [getNonceFromResponse] saw the responses one after the
    other. *)
Definition store (j : jws) (resps : list Response) : jws :=
  foldl (fun j resp => (getNonceFromResponse j resp).2) j resps.

(** [k] calls of [Nonce], as long as they succeed: the nonces drawn, in the
    order they were drawn, and the object left. *)
Fixpoint draw (k : nat) (j : jws) : list string * jws :=
  match k with
  | O => ([], j)
  | S k' =>
      match Nonce j with
      | ((n, None), j') => let '(ns, j'') := draw k' j' in (n :: ns, j'')
      | ((_, Some _), _) => ([], j)
      end
  end.

(** The string is not empty. *)
Definition nonempty (n : string) : bool := negb (String.eqb n "").

(** No byte of the string is an angle bracket or a [;]. *)
Definition clean_url (url : string) : bool :=
  all_bytes (fun c => negb (aBrkt c || Ascii.eqb c ";"%char)) url.

End Vocabulary.

(** * Properties *)

(** ** The nonce pool (acme/jws.go) *)

Module JwsFacts.
Import Http World Jws Spec.

Lemma set_nonces_same (j : jws) : set_nonces j (nonces j) = j.
Proof. by destruct j. Qed.

Lemma last_snoc (ns : list string) (n d : string) : List.last (ns ++ [n]) d = n.
Proof. apply List.last_last. Qed.

Lemma length_removelast_S {A : Type} (l : list A) :
  l ≠ [] -> S (length (removelast l)) = length l.
Proof.
  intros H. destruct l as [| a l]; [done |].
  rewrite (app_removelast_last a H) at 2. rewrite length_app. simpl. lia.
Qed.

Lemma Nonce_snoc (key : option PrivateKey) (ns : list string) (n : string) :
  Nonce (mkJws key (ns ++ [n])) = ((n, None), mkJws key ns).
Proof.
  unfold Nonce, set_nonces; simpl.
  rewrite length_app, Nat.add_1_r; simpl.
  by rewrite last_snoc, removelast_last.
Qed.

Lemma Nonce_empty (key : option PrivateKey) :
  Nonce (mkJws key []) =
    (("", Some (errorString "No nonce available.")), mkJws key []).
Proof. reflexivity. Qed.

Lemma getNonceFromResponse_present (j : jws) (resp : Response) :
  Get (Header resp) "Replay-Nonce" ≠ "" ->
  getNonceFromResponse j resp =
    (None, set_nonces j (nonces j ++ [Get (Header resp) "Replay-Nonce"])).
Proof. intros H. unfold getNonceFromResponse. by case_decide. Qed.

Lemma getNonceFromResponse_absent (j : jws) (resp : Response) :
  Get (Header resp) "Replay-Nonce" = "" ->
  getNonceFromResponse j resp =
    (Some (errorString "Server did not respond with a proper nonce header."), j).
Proof. intros H. unfold getNonceFromResponse. by case_decide. Qed.

(** C9. Drawing a nonce removes and returns exactly the nonce that was added
    last: on a pool [ns ++ [n]] the draw returns [n] and leaves [ns], and
    right after [getNonceFromResponse] stored the nonce of a response the
    draw returns that nonce and restores the object as it was. On an empty
    pool the draw returns an error and the object is unchanged. *)
Theorem Nonce_last_in_first_out (key : option PrivateKey) (ns : list string) :
  (forall n, Nonce (mkJws key (ns ++ [n])) = ((n, None), mkJws key ns)) /\
  (forall resp, Get (Header resp) "Replay-Nonce" ≠ "" ->
     Nonce (getNonceFromResponse (mkJws key ns) resp).2 =
       ((Get (Header resp) "Replay-Nonce", None), mkJws key ns)) /\
  Nonce (mkJws key []) =
    (("", Some (errorString "No nonce available.")), mkJws key []).
Proof.
  split; [| split].
  - intros n. apply Nonce_snoc.
  - intros resp H. rewrite getNonceFromResponse_present by done.
    apply Nonce_snoc.
  - apply Nonce_empty.
Qed.

Lemma Nonce_last_in_first_out_witness :
  Nonce (getNonceFromResponse (mkJws None ["n1"])
           (response 200 [("Replay-Nonce", "n2")] "")).2 =
    (("n2", None), mkJws None ["n1"]).
Proof.
  apply (Nonce_last_in_first_out None ["n1"]).
  vm_compute. discriminate.
Defined.

(** C2. A draw succeeds exactly when the pool is not empty, and a
    successful draw shortens the pool by exactly one. A response that
    carries a [Replay-Nonce] header ([Header.Get] gives its value, which is
    not the empty string the call gives for a missing header) lengthens the
    pool by exactly one, whatever its status code and body; a response for
    which [Header.Get] gives the empty string leaves the object unchanged.
    So the pool grows by one or not at all per response. *)
Theorem nonce_pool_size (j : jws) (status : Z) (header : gmap string (list string))
  (body : string) :
  let resp := mkResponse status header body in
  (nonces j ≠ [] ->
     exists n j', Nonce j = ((n, None), j') /\
       S (length (nonces j')) = length (nonces j)) /\
  (forall n j', Nonce j = ((n, None), j') ->
     nonces j ≠ [] /\ S (length (nonces j')) = length (nonces j)) /\
  (Get header "Replay-Nonce" ≠ "" ->
     length (nonces (getNonceFromResponse j resp).2) = S (length (nonces j))) /\
  (Get header "Replay-Nonce" = "" -> (getNonceFromResponse j resp).2 = j).
Proof.
  intros resp. split; [| split; [| split]].
  - intros Hne. unfold Nonce.
    destruct (nonces j) as [| x xs] eqn:E; [done |].
    cbn [length Nat.eqb]. eexists _, _. split; [reflexivity |].
    by apply (length_removelast_S (x :: xs)).
  - intros n j'. unfold Nonce.
    destruct (nonces j) as [| x xs] eqn:E; [discriminate |].
    cbn [length Nat.eqb]. intros [= _ <-]. split; [done |].
    by apply (length_removelast_S (x :: xs)).
  - intros H. rewrite getNonceFromResponse_present by done. simpl.
    by rewrite length_app, Nat.add_1_r.
  - intros H. by rewrite getNonceFromResponse_absent.
Qed.

Lemma nonce_pool_size_witness :
  (exists n j', Nonce (mkJws None ["n1"]) = ((n, None), j') /\
     S (length (nonces j')) = length (nonces (mkJws None ["n1"]))) /\
  length (nonces (getNonceFromResponse (mkJws None ["n1"])
                    (mkResponse 500 {["Replay-Nonce" := ["n2"]]} "")).2) = 2.
Proof.
  destruct (nonce_pool_size (mkJws None ["n1"]) 500 {["Replay-Nonce" := ["n2"]]} "")
    as (Hdraw & _ & Hgrow & _).
  split.
  - apply Hdraw. discriminate.
  - apply Hgrow. vm_compute. discriminate.
Defined.

(** [Header.Get] gives the empty string when the header is missing, and also
    when its first value is empty: such a header line counts as no nonce. *)
Lemma Get_missing (header : gmap string (list string)) (key : string) :
  header !! key = None -> Get header key = "".
Proof. intros H. unfold Get. by rewrite H. Qed.

Lemma Get_empty_value (header : gmap string (list string)) (key : string)
  (vs : list string) :
  header !! key = Some ("" :: vs) -> Get header key = "".
Proof. intros H. unfold Get. by rewrite H. Qed.

Section WithLib.
Context `{L : Lib}.

(** With a signer that draws one nonce from the object ([jose_Sign]), a
    successful [signContent] leaves a pool that is shorter by exactly one. *)
Lemma signContent_draws_one (content signed : string) (s s' : State) :
  signContent content s = (Ret (Some signed, None), s') ->
  S (length (nonces (the_jws s'))) = length (nonces (the_jws s)).
Proof.
  unfold signContent, jose_Sign, on_jws, get_jws, put_jws.
  unfold mbind, M_bind, mret, M_ret. simpl.
  destruct (jose_NewSigner (privKey (the_jws s))); [done |].
  unfold Nonce.
  destruct (nonces (the_jws s)) as [| x xs] eqn:E; [done |].
  cbn [length Nat.eqb]. simpl.
  destruct (jose_seal _ _ _); simpl; intros [= <- <-]; simpl.
  by apply (length_removelast_S (x :: xs)).
Qed.

End WithLib.

End JwsFacts.

(** ** Construction and registration (acme/client.go) *)

Module ClientFacts.
Import Http Messages World Jws Client GoStrings Regexp Spec.

Lemma validations_snoc (tr : list event) (e : event) :
  validations (tr ++ [e]) = (validations tr + (if is_validate e then 1 else 0))%nat.
Proof.
  unfold validations. rewrite List.filter_app, length_app. simpl.
  by destruct (is_validate e).
Qed.

Lemma requests_snoc (tr : list event) (e : event) :
  requests (tr ++ [e]) = (requests tr + (if is_request e then 1 else 0))%nat.
Proof.
  unfold requests. rewrite List.filter_app, length_app. simpl.
  by destruct (is_request e).
Qed.

Section Quiet.
Context {A B : Type}.

Lemma quiet_ret (a : A) : validates_nothing (mret a : M A).
Proof. by intros s. Qed.

Lemma quiet_lift (o : outcome A) : validates_nothing (lift o).
Proof. by intros s. Qed.

Lemma quiet_bind (m : M A) (f : A -> M B) :
  validates_nothing m -> (forall a, validates_nothing (f a)) ->
  validates_nothing (m ≫= f).
Proof.
  intros Hm Hf s. unfold mbind, M_bind.
  specialize (Hm s). destruct (m s) as [[a | msg | msg] s']; simpl in *; try done.
  by rewrite Hf.
Qed.

End Quiet.

Lemma quiet_emit (e : event) : is_validate e = false -> validates_nothing (emit e).
Proof. intros H s. simpl. rewrite validations_snoc, H. lia. Qed.

Lemma quiet_get_jws : validates_nothing get_jws.
Proof. by intros s. Qed.

Lemma quiet_put_jws (j : jws) : validates_nothing (put_jws j).
Proof. by intros s. Qed.

Lemma quiet_next_reply : validates_nothing next_reply.
Proof. intros s. unfold next_reply. by destruct (wire s). Qed.

Lemma quiet_deref {A : Type} (p : option A) : validates_nothing (deref p).
Proof. destruct p; [apply quiet_ret | apply quiet_lift]. Qed.

Create HintDb quiet.
#[local] Hint Resolve quiet_ret quiet_lift quiet_get_jws quiet_put_jws
  quiet_next_reply quiet_deref : quiet.

(** One step of the proof that a computation validates nothing: split a
    bind, or decide a test of the program. *)
Ltac quiet_step :=
  match goal with
  | |- validates_nothing (_ ≫= _) => apply quiet_bind; [| intros ?]
  | |- validates_nothing (emit _) => apply quiet_emit; reflexivity
  | |- validates_nothing (match ?x with _ => _ end) => destruct x
  | |- validates_nothing (let '(_, _) := ?x in _) => destruct x
  | |- validates_nothing (if ?b then _ else _) => destruct b
  | |- _ => solve [auto with quiet]
  end.

Lemma quiet_on_jws {A : Type} (f : jws -> A * jws) : validates_nothing (on_jws f).
Proof. unfold on_jws. repeat quiet_step. Qed.

#[local] Hint Resolve quiet_on_jws : quiet.

Section WithLib.
Context `{L : Lib}.

Lemma quiet_http_Head (url : string) : validates_nothing (http_Head url).
Proof. unfold http_Head. repeat quiet_step. Qed.

Lemma quiet_http_Post (url ct body : string) : validates_nothing (http_Post url ct body).
Proof. unfold http_Post. repeat quiet_step. Qed.

Lemma quiet_getNonce (url : string) : validates_nothing (getNonce url).
Proof. unfold getNonce. pose proof quiet_http_Head. repeat quiet_step. Qed.

Lemma quiet_jose_Sign (content : string) : validates_nothing (jose_Sign content).
Proof. unfold jose_Sign. repeat quiet_step. Qed.

Lemma quiet_signContent (content : string) : validates_nothing (signContent content).
Proof. unfold signContent. pose proof quiet_jose_Sign. repeat quiet_step. Qed.

Lemma quiet_post (url content : string) : validates_nothing (post url content).
Proof.
  unfold post.
  pose proof quiet_getNonce. pose proof quiet_signContent. pose proof quiet_http_Post.
  repeat quiet_step.
Qed.

(** C7. [NewClient] validates the account key exactly once and sends
    nothing to the network; a key that [Validate] rejects ends the process
    there with the fatal log line, a key it accepts gives a client. The sign
    operation, and a whole [post], validate nothing. *)
Theorem key_validated_once_at_construction (caURL optPort : string) (usr : User)
  (key : PrivateKey) (s : State) :
  GetPrivateKey usr = Some key ->
  let r := NewClient caURL usr optPort s in
  validations (trace r.2) = S (validations (trace s)) /\
  requests (trace r.2) = requests (trace s) /\
  wire r.2 = wire s /\
  (forall err, rsa_Validate key = Some err ->
     r.1 = Fatal ("Could not validate the private account key of "
                  +:+ GetEmail usr +:+ " -> " +:+ error_msg err)) /\
  (rsa_Validate key = None ->
     r.1 = Ret {| regURL := caURL; user := usr; Solvers := ∅ |}) /\
  (forall content, validates_nothing (signContent content)) /\
  (forall url content, validates_nothing (post url content)).
Proof.
  intros Hkey r. subst r. unfold NewClient. rewrite Hkey.
  unfold mbind, M_bind, deref, mret, M_ret, emit. simpl.
  destruct (rsa_Validate key) as [err |] eqn:Hv; simpl;
    rewrite ?validations_snoc, ?requests_snoc; simpl;
    repeat split; try lia; try done;
    auto using quiet_signContent, quiet_post.
  - intros err' [= <-]. done.
Qed.

(** C10. When [post] returns the answer of the server and its status is
    409, [Register] returns no registration resource and an error. *)
Theorem Register_conflict_is_an_error (c : Client) (s s1 : State)
  (jsonBytes : string) (resp : Response) :
  json_Marshal_registrationMessage
    {| Contact := ["mailto:" +:+ GetEmail (user c)] |} = inl jsonBytes ->
  post (regURL c) jsonBytes (log_print "Registering account ... " s).2
    = (Ret (Some resp, None), s1) ->
  StatusCode resp = StatusConflict ->
  Register c s =
    (Ret (None, Some (errorString "This account is already registered with this CA.")),
     s1).
Proof.
  intros Hm Hp Hs. unfold Register. rewrite Hm.
  unfold mbind at 1. unfold M_bind. simpl.
  unfold mbind at 1. unfold M_bind. simpl in Hp. rewrite Hp. simpl.
  unfold mbind, M_bind. simpl.
  by case_decide.
Qed.

End WithLib.

Lemma key_validated_once_at_construction_witness :
  (NewClient (L := strict_lib) "https://ca.example" demo_user "" (fresh [])).1 =
    Fatal "Could not validate the private account key of admin@example.com -> crypto/rsa: invalid modulus".
Proof.
  destruct (key_validated_once_at_construction (L := strict_lib)
              "https://ca.example" "" demo_user demo_key (fresh []) eq_refl)
    as (_ & _ & _ & Hfatal & _).
  apply (Hfatal (errorString "crypto/rsa: invalid modulus")). reflexivity.
Defined.

Lemma Register_conflict_is_an_error_witness :
  (Register (L := demo_lib) demo_client
     (fresh [Answer (response 200 [("Replay-Nonce", "n1")] "");
             Answer (response 409 [("Replay-Nonce", "n2")] "")])).1 =
    Ret (None, Some (errorString "This account is already registered with this CA.")).
Proof.
  erewrite (Register_conflict_is_an_error (L := demo_lib)); reflexivity.
Defined.

End ClientFacts.

(** ** [Link] headers (acme/client.go, [parseLinks]) *)

Module LinkFacts.
Import Http Messages World Jws Client GoStrings Regexp Spec.

Lemma Split_not_nil (s : string) (sep : ascii) : Split s sep ≠ [].
Proof.
  induction s as [| a s IH]; simpl; [done |].
  destruct (Ascii.eqb a sep); [done |]. by destruct (Split s sep).
Qed.

(** [Split] gives two pieces or more exactly when the separator occurs. *)
Lemma Split_length_contains (s : string) (sep : ascii) :
  contains s sep = true <-> 2 <= length (Split s sep).
Proof.
  induction s as [| a s IH]; simpl.
  - split; [done | lia].
  - destruct (Ascii.eqb a sep) eqn:E; simpl.
    + pose proof (Split_not_nil s sep).
      destruct (Split s sep); [done |]. simpl. split; [lia | done].
    + pose proof (Split_not_nil s sep).
      destruct (Split s sep) eqn:E'; [done |]. simpl in *. done.
Qed.

Lemma contains_filter_bytes (keep : ascii -> bool) (s : string) (c : ascii) :
  keep c = true -> contains (filter_bytes keep s) c = contains s c.
Proof.
  intros Hk. induction s as [| a s IH]; simpl; [done |].
  destruct (keep a) eqn:Ea; simpl.
  - by rewrite IH.
  - rewrite IH. destruct (Ascii.eqb a c) eqn:E; [| done].
    apply Ascii.eqb_eq in E. congruence.
Qed.

Lemma contains_without_brackets (link : string) :
  contains (ReplaceAllString_empty aBrkt link) ";" = contains link ";".
Proof. apply contains_filter_bytes. reflexivity. Qed.

Lemma index_Ret {A : Type} (l : list A) (i : nat) :
  i < length l -> exists x, index l i = Ret x.
Proof.
  intros H. unfold index. destruct (l !! i) eqn:E; [by eexists |].
  apply lookup_ge_None in E. lia.
Qed.

Lemma index_Panic {A : Type} (l : list A) (i : nat) :
  length l <= i -> index l i = Panic index_out_of_range.
Proof. intros H. unfold index. by rewrite (proj2 (lookup_ge_None l i)). Qed.

(** The result of [FindStringSubmatch] with the second expression is [nil]
    or has three elements. *)
Lemma slver_submatch_length (s : string) :
  FindStringSubmatch slver s = [] \/ length (FindStringSubmatch slver s) = 3.
Proof.
  unfold FindStringSubmatch. destruct (find slver s) as [[whole caps] |]; [| by left].
  right. reflexivity.
Qed.

Lemma part1_in_bounds (link : string) :
  contains link ";" = true <->
  exists part1, index (Split (ReplaceAllString_empty aBrkt link) ";") 1 = Ret part1.
Proof.
  rewrite <- contains_without_brackets, Split_length_contains. split.
  - intros H. by apply index_Ret.
  - intros [part1 H]. unfold index in H.
    destruct (_ !! 1) eqn:E; [| done]. apply lookup_lt_Some in E. lia.
Qed.

Lemma parseLink_returns (linkMap : gmap string string) (link : string) :
  contains link ";" = true -> exists linkMap', parseLink linkMap link = Ret linkMap'.
Proof.
  intros H. unfold parseLink.
  destruct (proj1 (part1_in_bounds link) H) as [part1 ->].
  unfold mbind at 1, outcome_bind.
  destruct (slver_submatch_length part1) as [-> | Hlen]; [by eexists |].
  destruct (index_Ret (FindStringSubmatch slver part1) 2) as [key Hkey]; [lia |].
  destruct (index_Ret (Split (ReplaceAllString_empty aBrkt link) ";") 0) as [part0 H0].
  { pose proof (Split_not_nil (ReplaceAllString_empty aBrkt link) ";").
    destruct (Split _ _); [done | simpl; lia]. }
  rewrite Hlen, Hkey, H0. simpl. by eexists.
Qed.

Lemma parseLink_panics (linkMap : gmap string string) (link : string) :
  contains link ";" = false -> parseLink linkMap link = Panic index_out_of_range.
Proof.
  intros H. unfold parseLink.
  rewrite (index_Panic (Split (ReplaceAllString_empty aBrkt link) ";") 1); [reflexivity |].
  rewrite <- contains_without_brackets in H.
  destruct (le_lt_dec (length (Split (ReplaceAllString_empty aBrkt link) ";")) 1) as [Hle | Hgt];
    [done |].
  apply Split_length_contains in Hgt. congruence.
Qed.

Lemma parseLinks_from_returns (links : list string) (linkMap : gmap string string) :
  Forall (fun link => contains link ";" = true) links ->
  exists linkMap', parseLinks_from linkMap links = Ret linkMap'.
Proof.
  intros H. revert linkMap. induction H as [| link links Hl _ IH]; intros linkMap; simpl.
  - by eexists.
  - destruct (parseLink_returns linkMap link Hl) as [m ->]. apply IH.
Qed.

Lemma parseLinks_from_panics (links : list string) (linkMap : gmap string string)
  (msg : string) :
  parseLinks_from linkMap links = Panic msg ->
  Exists (fun link => contains link ";" = false) links.
Proof.
  revert linkMap. induction links as [| link links IH]; intros linkMap; simpl; [done |].
  destruct (contains link ";") eqn:E.
  - destruct (parseLink_returns linkMap link E) as [m ->]. simpl.
    intros H. right. by eapply IH.
  - intros _. by left.
Qed.

Lemma parseLinks_from_Exists (links : list string) (linkMap : gmap string string) :
  Exists (fun link => contains link ";" = false) links ->
  parseLinks_from linkMap links = Panic index_out_of_range.
Proof.
  intros H. revert linkMap. induction H as [link links Hl | link links _ IH];
    intros linkMap; simpl.
  - by rewrite parseLink_panics.
  - destruct (contains link ";") eqn:E.
    + destruct (parseLink_returns linkMap link E) as [m ->]. apply IH.
    + by rewrite parseLink_panics.
Qed.

(** C8. The second piece of the [;]-split of a header value exists exactly
    when the value contains a [;]. Hence, when every value given to
    [parseLinks] contains a [;], the call returns a map (no index is out of
    range); and the call panics, with the index error, exactly when one of
    the values has no [;]. *)
Theorem parseLinks_second_piece_in_bounds (links : list string) :
  (forall link, contains link ";" = true <->
     exists part1, index (Split (ReplaceAllString_empty aBrkt link) ";") 1 = Ret part1) /\
  (Forall (fun link => contains link ";" = true) links ->
     exists linkMap, parseLinks links = Ret linkMap) /\
  ((exists msg, parseLinks links = Panic msg) <->
     Exists (fun link => contains link ";" = false) links) /\
  (Exists (fun link => contains link ";" = false) links ->
     parseLinks links = Panic index_out_of_range).
Proof.
  split; [| split; [| split]].
  - apply part1_in_bounds.
  - apply parseLinks_from_returns.
  - split.
    + intros [msg H]. by eapply parseLinks_from_panics.
    + intros H. eexists. by apply parseLinks_from_Exists.
  - apply parseLinks_from_Exists.
Qed.

Lemma parseLinks_second_piece_in_bounds_witness :
  exists linkMap, parseLinks ["<https://ca.example/new-authz>;rel=next"; "a;b;c"] = Ret linkMap.
Proof.
  apply (parseLinks_second_piece_in_bounds
           ["<https://ca.example/new-authz>;rel=next"; "a;b;c"]).
  repeat constructor.
Defined.

End LinkFacts.

(** ** The choice of solvers (acme/client.go, [chooseSolvers]) *)

Module SolverFacts.
Import Http Messages World Jws Client Spec.

(** C1, at the failing input: the one combination names the challenge of
    index 1, for whose type no solver is registered, so it is not covered;
    [chooseSolvers] reads the challenge at position 0 of the combination
    instead and returns its solver. *)
Theorem chooseSolvers_reads_positions :
  let c := mkClient "" demo_user {["simpleHttp" := mkSolver "simpleHttp" true]} in
  let auth := mkAuthorization (mkIdentifier "dns" "example.com")
                [a_challenge "simpleHttp"; a_challenge "dvsni"] [[1%Z]] in
  covered c auth [1%Z] = false /\
  chooseSolvers c auth = Ret (Some {[0 := mkSolver "simpleHttp" true]}).
Proof. split; reflexivity. Qed.

(** The other way round: a covered combination is passed over when the
    challenge at its position 0 has no solver. *)
Lemma chooseSolvers_misses_covered :
  let c := mkClient "" demo_user {["dvsni" := mkSolver "dvsni" true]} in
  let auth := mkAuthorization (mkIdentifier "dns" "example.com")
                [a_challenge "simpleHttp"; a_challenge "dvsni"] [[1%Z]] in
  covered c auth [1%Z] = true /\ chooseSolvers c auth = Ret None.
Proof. split; reflexivity. Qed.

(** The example of the specification: with the combinations [[0],[1,2]] and
    no solver for the types of the challenges 0 and 1, no solvers are
    chosen and [solveChallenges] returns the error for the domain. *)
Lemma chooseSolvers_none_covered (c : Client) (id : identifier) (ch0 ch1 ch2 : challenge) :
  Solvers c !! ch_Type ch0 = None -> Solvers c !! ch_Type ch1 = None ->
  chooseSolvers c (mkAuthorization id [ch0; ch1; ch2] [[0%Z]; [1%Z; 2%Z]]) = Ret None.
Proof.
  intros H0 H1. unfold chooseSolvers. simpl.
  unfold index. simpl. unfold mbind, outcome_bind. simpl. rewrite H0, H1. simpl.
  reflexivity.
Qed.

Lemma solveChallenges_no_solver (c : Client) (authz : authorizationResource)
  (rest : list authorizationResource) (s : State) :
  chooseSolvers c (authz_Body authz) = Ret None ->
  solveChallenges c (authz :: rest) s =
    (Ret (Some (errorString ("Could not determine solvers for " +:+ Domain authz))), s).
Proof. intros H. simpl. rewrite H. reflexivity. Qed.

End SolverFacts.

(** ** The order service (package [api]) *)

Module OrderFacts.
Import Http Base64 Api Spec.

Lemma append_identifiers_map (identifiers : list Identifier) (domains : list string) :
  append_identifiers identifiers domains = identifiers ++ map dns domains.
Proof.
  revert identifiers. induction domains as [| d ds IH]; intros ids; simpl.
  - by rewrite app_nil_r.
  - rewrite IH. by rewrite <- app_assoc.
Qed.

(** C5, as the code has it. [New] sends one request, to the new-order URL,
    for an order with exactly one identifier of type dns per input domain,
    in the order of the input and with the domain as it was given. When the
    server answers, the decoded order is returned together with the
    [Location] header of the response; when the request fails, the error is
    returned with an empty order. *)
Theorem New_one_identifier_per_domain (domains : list string) (core : Core) :
  let r := New domains core in
  sent r.2 = sent core ++
    [(NewOrderURL core, OrderPayload (mkOrder "" (map dns domains) None [] "" ""))] /\
  match answers core with
  | CoreAnswer resp decoded :: rest =>
      r.1 = ({| order := decoded; Location := Http.Get (Header resp) "Location" |}, None) /\
      answers r.2 = rest
  | CoreFailure err :: rest =>
      r.1 = (zero_ExtendedOrder, Some (PlainError err)) /\ answers r.2 = rest
  | [] =>
      r.1 = (zero_ExtendedOrder, Some (PlainError (errorString "connection refused")))
  end.
Proof.
  unfold New, core_post. rewrite append_identifiers_map. simpl.
  destruct (answers core) as [| [resp decoded | err] rest]; simpl; done.
Qed.

(** C5, counterexample: a list of domains with a repetition and with upper
    case letters is sent as it is, three identifiers for two distinct
    names. *)
Lemma New_keeps_duplicates_and_case :
  let core := mkCore "https://ca.example/new-order" [] [] in
  requested (New ["Example.COM"; "example.com"; "example.com"] core).2 =
    [[dns "Example.COM"; dns "example.com"; dns "example.com"]] /\
  ~ NoDup [dns "Example.COM"; dns "example.com"; dns "example.com"].
Proof.
  split; [reflexivity |].
  intros H. rewrite !NoDup_cons in H. destruct H as (_ & H & _).
  apply H. left.
Qed.

(** C6, as the code has it. [UpdateForCSR] sends one request to the given
    URL, whose payload is the unpadded base64url text of the CSR, and does
    not send another: when the decoded order has the status invalid, the
    problem the server put in the order is returned as the error, with an
    empty order; with every other status the decoded order is returned as it
    is. *)
Theorem UpdateForCSR_posts_once (orderURL csr : string) (core : Core) :
  let r := UpdateForCSR orderURL csr core in
  sent r.2 = sent core ++
    [(orderURL, CSRPayload {| Csr := RawURLEncoding_EncodeToString csr |})] /\
  match answers core with
  | CoreAnswer resp decoded :: rest =>
      answers r.2 = rest /\
      (Status decoded = StatusInvalid ->
         r.1 = (zero_ExtendedOrder, Some (ProblemError (Error decoded)))) /\
      (Status decoded ≠ StatusInvalid ->
         r.1 = ({| order := decoded; Location := "" |}, None))
  | CoreFailure err :: rest =>
      r.1 = (zero_ExtendedOrder, Some (PlainError err)) /\ answers r.2 = rest
  | [] =>
      r.1 = (zero_ExtendedOrder, Some (PlainError (errorString "connection refused")))
  end.
Proof.
  unfold UpdateForCSR, core_post.
  destruct (answers core) as [| [resp decoded | err] rest]; simpl; try done.
  case_decide; simpl; repeat split; try done.
Qed.

Lemma UpdateForCSR_posts_once_witness :
  (UpdateForCSR "https://ca.example/finalize/1" "foobar"
     (mkCore "https://ca.example/new-order" []
        [CoreAnswer (mkResponse 200 ∅ "")
           (mkOrder "invalid" [] (Some problem_bad_csr) [] "" "")])).1 =
    (zero_ExtendedOrder, Some (ProblemError (Some problem_bad_csr))).
Proof.
  destruct (UpdateForCSR_posts_once "https://ca.example/finalize/1" "foobar"
              (mkCore "https://ca.example/new-order" []
                 [CoreAnswer (mkResponse 200 ∅ "")
                    (mkOrder "invalid" [] (Some problem_bad_csr) [] "" "")]))
    as (_ & _ & Hinvalid & _).
  apply Hinvalid. reflexivity.
Defined.

(** C6, counterexample: the server answers that the order is being
    processed and would answer valid to a second request; [UpdateForCSR]
    returns the processing order without an error, after one request, and
    the second answer is still to come. *)
Lemma UpdateForCSR_does_not_poll :
  let processing := mkOrder "processing" [] None [] "https://ca.example/finalize/1" "" in
  let valid := mkOrder "valid" [] None [] "https://ca.example/finalize/1"
                 "https://ca.example/cert/1" in
  let core := mkCore "https://ca.example/new-order" []
                [CoreAnswer (mkResponse 200 ∅ "") processing;
                 CoreAnswer (mkResponse 200 ∅ "") valid] in
  let r := UpdateForCSR "https://ca.example/finalize/1" "foobar" core in
  r.1 = ({| order := processing; Location := "" |}, None) /\
  Status (order r.1.1) ≠ StatusValid /\ Status (order r.1.1) ≠ StatusInvalid /\
  sent r.2 = [("https://ca.example/finalize/1", CSRPayload {| Csr := "Zm9vYmFy" |})] /\
  answers r.2 = [CoreAnswer (mkResponse 200 ∅ "") valid].
Proof. repeat split; try reflexivity; discriminate. Qed.

End OrderFacts.

(** ** The concurrent fetch (acme/client.go, [getChallenges]) *)

Module FetchFacts.
Import Http Messages World Jws Client Spec.

(** An interleaving only reorders the actions of the goroutines. *)
Lemma interleave_Permutation (sched : list nat) (tasks : list (list action)) :
  Permutation (interleave sched tasks) (concat tasks).
Proof.
  revert tasks. induction sched as [| k sched IH]; intros tasks; simpl; [done |].
  destruct (tasks !! k) as [[| a acts] |] eqn:E; try apply IH.
  rewrite IH.
  rewrite <- (take_drop_middle tasks k (a :: acts) E) at 2.
  rewrite insert_take_drop by (by eapply lookup_lt_Some).
  rewrite !concat_app. simpl.
  by rewrite Permutation_middle.
Qed.

Lemma logged_nil (s : State) : logged s [] = s.
Proof. destruct s. unfold logged. simpl. by rewrite app_nil_r. Qed.

Lemma logged_cons (s : State) (e : error) (errs : list error) :
  logged s (e :: errs) = logged (log_print (error_msg e) s).2 errs.
Proof. unfold logged. simpl. by rewrite <- app_assoc. Qed.

(** When the goroutines only send, the loop receives the first [n]
    messages, and none is left. *)
Lemma receive_all (arrived : list message) (responses : list authorizationResource)
  (s : State) :
  receive (map Send arrived) (length arrived) responses s =
    (Ret (responses ++ results arrived, []), logged s (failures arrived)).
Proof.
  revert responses s. induction arrived as [| m ms IH]; intros responses s; simpl.
  - by rewrite app_nil_r, logged_nil.
  - destruct m as [res | err]; simpl.
    + rewrite IH. by rewrite <- app_assoc.
    + unfold mbind, M_bind. simpl. rewrite IH. by rewrite logged_cons.
Qed.

Section WithLib.
Context `{L : Lib}.

Lemma goroutine_marshal_fails (posted : string -> string -> option Response * option error)
  (c : Client) (domain : string) (err : error) :
  json_Marshal_authorization
    {| Identifier := {| id_Type := "dns"; id_Value := domain |};
       Challenges := []; Combinations := [] |} = inr err ->
  goroutine posted c domain = [Send (OnErrc err)].
Proof. intros H. unfold goroutine. by rewrite H. Qed.

Lemma goroutine_post_fails (posted : string -> string -> option Response * option error)
  (c : Client) (domain jsonBytes : string) (reg : RegistrationResource)
  (resp : option Response) (err : error) :
  json_Marshal_authorization
    {| Identifier := {| id_Type := "dns"; id_Value := domain |};
       Challenges := []; Combinations := [] |} = inl jsonBytes ->
  GetRegistration (user c) = Some reg ->
  posted (NewAuthzURL reg) jsonBytes = (resp, Some err) ->
  goroutine posted c domain = [Send (OnErrc err)].
Proof. intros H1 H2 H3. unfold goroutine. rewrite H1, H2, H3. by destruct resp. Qed.

Lemma goroutine_created (posted : string -> string -> option Response * option error)
  (c : Client) (domain jsonBytes : string) (reg : RegistrationResource)
  (resp : Response) (links : gmap string string) (authz : authorization) :
  json_Marshal_authorization
    {| Identifier := {| id_Type := "dns"; id_Value := domain |};
       Challenges := []; Combinations := [] |} = inl jsonBytes ->
  GetRegistration (user c) = Some reg ->
  posted (NewAuthzURL reg) jsonBytes = (Some resp, None) ->
  StatusCode resp = StatusCreated ->
  parseLinks (Values (Header resp) "Link") = Ret links ->
  map_get links "next" ≠ "" ->
  json_Decode_authorization (Body resp) = (authz, None) ->
  goroutine posted c domain =
    [Send (OnResc {| authz_Body := authz; NewCertURL := map_get links "next";
                     Domain := domain |})].
Proof.
  intros H1 H2 H3 H4 H5 H6 H7. unfold goroutine.
  rewrite H1, H2, H3, H5, H7. do 2 case_decide; done.
Qed.

(** Whatever the goroutines do and in whatever order, a call of
    [ObtainCertificates] that returns, returns nil. *)
Lemma ObtainCertificates_returns_nil
  (posted : string -> string -> option Response * option error) (sched : list nat)
  (c : Client) (domains : list string) (s : State) (e : option error) :
  (ObtainCertificates posted sched c domains s).1 = Ret e -> e = None.
Proof.
  unfold ObtainCertificates, mbind, M_bind.
  destruct (getChallenges posted sched c domains s) as [[challenges | msg | msg] s1];
    simpl; try done.
  destruct (solveChallenges c challenges s1) as [[e' | msg | msg] s2]; simpl; try done.
  by intros [= <-].
Qed.

(** C3, as the code has it. When the goroutine of each domain sends exactly
    one message (its result, or the error that stopped it), then under every
    schedule [getChallenges] returns after all of them arrived: [arrived] is
    the sequence of the messages in the order in which the schedule lets
    them arrive, it holds the message of every domain, and [getChallenges]
    returns the results among them in that order, whatever failed beside
    them, and writes each error to the log, in that order. No goroutine is
    left at the close. [ObtainCertificates] then runs [solveChallenges] on
    these results and, when that returns, returns nil: neither the logged
    errors nor the error of [solveChallenges] are returned. *)
Theorem getChallenges_waits_for_all_and_logs
  (posted : string -> string -> option Response * option error) (sched : list nat)
  (c : Client) (domains : list string) (msgs : list message) (s : State) :
  Forall2 (fun domain m => goroutine posted c domain = [Send m]) domains msgs ->
  exists arrived,
    interleave sched (map (goroutine posted c) domains) = map Send arrived /\
    Permutation arrived msgs /\
    (getChallenges posted sched c domains s).1 = Ret (results arrived) /\
    trace (getChallenges posted sched c domains s).2 =
      trace s ++ map (fun e => EvLog (error_msg e)) (failures arrived) /\
    (ObtainCertificates posted sched c domains s).1 =
      ((solveChallenges c (results arrived)
          (getChallenges posted sched c domains s).2).1 ≫= fun _ => Ret None).
Proof.
  intros H.
  assert (map (goroutine posted c) domains = map (fun m => [Send m]) msgs) as Htasks.
  { induction H as [| d m ds ms Hd _ IH]; simpl; [done |]. by rewrite Hd, IH. }
  assert (concat (map (fun m => [Send m]) msgs) = map Send msgs) as Hconcat.
  { clear. induction msgs as [| m ms IH]; simpl; [done |]. by rewrite IH. }
  pose proof (interleave_Permutation sched (map (goroutine posted c) domains)) as Hperm.
  rewrite Htasks, Hconcat in Hperm.
  apply Permutation_map_inv in Hperm as (arrived & Harr & Hp).
  assert (getChallenges posted sched c domains s =
            (Ret (results arrived), logged s (failures arrived))) as Hget.
  { unfold getChallenges. rewrite Htasks, Harr.
    replace (length domains) with (length arrived).
    - unfold mbind at 1. unfold M_bind.
      by rewrite (receive_all arrived []).
    - rewrite <- (Permutation_length Hp). symmetry. by eapply Forall2_length. }
  exists arrived. rewrite Htasks.
  split; [done |]. split; [by symmetry |]. rewrite Hget.
  split; [done |]. split; [done |].
  unfold ObtainCertificates. unfold mbind at 1. unfold M_bind. rewrite Hget.
  unfold mbind at 1. unfold M_bind. simpl.
  by destruct (solveChallenges c (results arrived) (logged s (failures arrived)))
    as [[e | msg | msg] s'].
Qed.

End WithLib.

Lemma getChallenges_waits_for_all_and_logs_witness :
  exists arrived,
    interleave [1; 0]
      (map (goroutine (L := demo_lib) demo_posted registered_client)
         ["a.example.com"; "b.example.com"]) = map Send arrived /\
    Permutation arrived
      [OnErrc (errorString "dial tcp: connection refused");
       OnResc {| authz_Body := zero_authorization;
                 NewCertURL := "https://ca.example/new-cert";
                 Domain := "b.example.com" |}] /\
    (getChallenges (L := demo_lib) demo_posted [1; 0] registered_client
       ["a.example.com"; "b.example.com"] (fresh [])).1 = Ret (results arrived) /\
    trace (getChallenges (L := demo_lib) demo_posted [1; 0] registered_client
             ["a.example.com"; "b.example.com"] (fresh [])).2 =
      trace (fresh []) ++ map (fun e => EvLog (error_msg e)) (failures arrived) /\
    (ObtainCertificates (L := demo_lib) demo_posted [1; 0] registered_client
       ["a.example.com"; "b.example.com"] (fresh [])).1 =
      ((solveChallenges registered_client (results arrived)
          (getChallenges (L := demo_lib) demo_posted [1; 0] registered_client
             ["a.example.com"; "b.example.com"] (fresh [])).2).1 ≫= fun _ => Ret None).
Proof.
  apply (getChallenges_waits_for_all_and_logs (L := demo_lib)).
  repeat constructor.
Defined.

(** C3, counterexample: the request for the only domain fails; the error is
    written to the log and [ObtainCertificates] returns nil. *)
Lemma ObtainCertificates_returns_nil_on_failure :
  (ObtainCertificates (L := demo_lib) demo_posted [] registered_client
     ["a.example.com"] (fresh [])).1 = Ret None /\
  trace (ObtainCertificates (L := demo_lib) demo_posted [] registered_client
           ["a.example.com"] (fresh [])).2 =
    [EvLog "dial tcp: connection refused"].
Proof. split; reflexivity. Qed.

End FetchFacts.

(** ** [Link] headers: what [parseLinks] returns *)

Module LinkMapFacts.
Import Http Messages World Jws Client GoStrings Regexp Spec.

#[local] Arguments String.append !s1 s2 : simpl nomatch.



Lemma length_append (a b : string) :
  String.length (a +:+ b) = String.length a + String.length b.
Proof. induction a; simpl; congruence. Qed.




Lemma all_bytes_impl (p q : ascii -> bool) (s : string) :
  (forall c, p c = true -> q c = true) -> all_bytes p s = true -> all_bytes q s = true.
Proof.
  intros H. induction s; simpl; [done |].
  intros [Ha Hs]%andb_prop. rewrite (H _ Ha). auto.
Qed.






(* --- the matcher --- *)



Lemma many_inv {R : Type} (p : ascii -> bool) (s : string) (k : string -> option R) (x : R) :
  many p s k = Some x -> exists u rest, s = u +:+ rest /\ k rest = Some x.
Proof.
  induction s as [| c s IH]; simpl.
  - intros H. by exists "", "".
  - destruct (p c).
    + destruct (many p s k) eqn:E.
      * intros [= ->]. destruct (IH eq_refl) as (u & rest & -> & Hk).
        by exists (String c u), rest.
      * intros H. by exists "", (String c s).
    + intros H. by exists "", (String c s).
Qed.

Lemma count_byte_append (c : ascii) (a b : string) :
  count_byte c (a +:+ b) = count_byte c a + count_byte c b.
Proof. induction a; simpl; [done |]. rewrite IHa. lia. Qed.


Lemma byte_true (a c : ascii) : byte a c = true -> c = a.
Proof. unfold byte. apply Ascii.eqb_eq. Qed.

(** The tail matches only where two double quotes follow. *)
Lemma slver_tail_two_quotes {R : Type} (t : string) (caps : gmap nat string)
  (k : string -> gmap nat string -> option R) (x : R) :
  run slver_tail t caps k = Some x -> 2 <= count_byte dquote t.
Proof.
  unfold slver_tail. simpl.
  intros (u1 & r1 & -> & H)%many_inv.
  destruct r1 as [| c1 r2]; [done |]. destruct (byte "=" c1) eqn:E1; [| done].
  apply many_inv in H as (u2 & r3 & -> & H).
  destruct r3 as [| c3 r4]; [done |]. destruct (byte dquote c3) eqn:E3; [| done].
  apply byte_true in E3 as ->.
  destruct r4 as [| c4 r5]; [done |]. destruct (dot c4); [| done].
  apply many_inv in H as (u3 & r6 & -> & H).
  destruct r6 as [| c6 r7]; [done |]. destruct (byte dquote c6) eqn:E6; [| done].
  apply byte_true in E6 as ->.
  rewrite !count_byte_append. simpl. rewrite !count_byte_append. simpl.
  rewrite !count_byte_append. simpl. lia.
Qed.






Lemma run_first_group {R : Type} (tail : regex) (c : ascii) (s : string)
  (caps : gmap nat string) (k : string -> gmap nat string -> option R) :
  run (Cat (Group 1 (Many1 dot)) tail) (String c s) caps k =
    if dot c then
      many dot s (fun rest => run tail rest (<[1 := consumed (String c s) rest]> caps) k)
    else None.
Proof. reflexivity. Qed.











End LinkMapFacts.

(** ** [RawURLEncoding] *)

Module Base64Facts.
Import Base64.

Example EncodeToString_rfc4648 :
  map RawURLEncoding_EncodeToString ["f"; "fo"; "foo"; "foob"; "fooba"; "foobar"] =
    ["Zg"; "Zm8"; "Zm9v"; "Zm9vYg"; "Zm9vYmE"; "Zm9vYmFy"].
Proof. reflexivity. Qed.

(** The two digits that differ from the standard alphabet. *)
Example EncodeToString_url_safe :
  RawURLEncoding_EncodeToString (String "251" (String "255" EmptyString)) = "-_8".
Proof. reflexivity. Qed.

(** Four digits for three bytes, no padding. *)
Lemma EncodeToString_length (src : string) :
  String.length (RawURLEncoding_EncodeToString src) = (4 * String.length src + 2) / 3.
Proof.
  assert (forall n src, String.length src <= n ->
            String.length (RawURLEncoding_EncodeToString src)
            = (4 * String.length src + 2) / 3) as H.
  { clear src. induction n as [| n IH]; intros src Hn.
    - destruct src; [reflexivity | simpl in Hn; lia].
    - destruct src as [| a0 [| a1 [| a2 rest]]]; try reflexivity.
      cbn [RawURLEncoding_EncodeToString String.length].
      rewrite IH by (simpl in Hn; lia).
      replace (4 * S (S (S (String.length rest))) + 2)
        with (4 * 3 + (4 * String.length rest + 2)) by lia.
      rewrite (Nat.div_add_l 4 3) by lia. lia. }
  by apply (H (String.length src)).
Qed.

End Base64Facts.

(** * Further properties of the code *)

(** ** [post] (acme/jws.go) *)

Module PostFacts.
Import Http Messages World Jws Client GoStrings Regexp Spec Agreement Vocabulary.

Section WithLib.
Context `{L : Lib}.

Ltac run_post :=
  unfold post, getNonce, signContent, jose_Sign, on_jws, http_Head, http_Post,
    next_reply, reply_result, get_jws, put_jws, emit, deref, lift,
    getNonceFromResponse, Nonce, set_nonces;
  unfold mbind, M_bind, mret, M_ret; simpl.

Lemma post_outcome (url content : string) (s : State) :
  exists s',
    (exists resp, post url content s = (Ret (Some resp, None), s')) \/
    (exists err, post url content s = (Ret (None, Some err), s')).
Proof.
  destruct s as [[key ns] w tr]. run_post.
  destruct ns as [| n ns]; simpl.
  - destruct w as [| [r | e] w]; simpl; [eauto | | eauto].
    case_decide; simpl; [eauto |].
    destruct (jose_NewSigner key); simpl; [eauto |].
    destruct (jose_seal key _ content); simpl; [| eauto].
    destruct w as [| [r' | e'] w]; simpl; [eauto | | eauto].
    case_decide; simpl; eauto.
  - destruct (jose_NewSigner key); simpl; [eauto |].
    destruct (jose_seal key _ content); simpl; [| eauto].
    destruct w as [| [r' | e'] w]; simpl; [eauto | | eauto].
    case_decide; simpl; eauto.
Qed.

(** X1. [post] always returns, and it returns either a response and no
    error or an error and no response: it never panics and never ends the
    process. *)
Theorem post_returns_response_or_error (url content : string) (s : State) :
  exists s',
    (exists resp, post url content s = (Ret (Some resp, None), s')) \/
    (exists err, post url content s = (Ret (None, Some err), s')).
Proof. apply post_outcome. Qed.

(** X2. With an empty pool, when the probe for a nonce fails or its answer
    has no [Replay-Nonce] value, [post] returns the error that names the
    URL; the only request is the probe, nothing is posted and the pool stays
    empty. *)
Theorem post_without_nonce_sends_nothing (url content : string) (s : State) :
  nonces (the_jws s) = [] -> head_gives_no_nonce s = true ->
  exists err,
    post url content s =
      (Ret (None, Some (errorString
         ("Could not get a nonce for request: " +:+ url +:+
          String "010" (String "009" (String "009" "Error: ")) +:+ error_msg err))),
       {| the_jws := the_jws s; wire := tail (wire s);
          trace := trace s ++ [EvHead url] |}).
Proof.
  destruct s as [[key ns] w tr]. unfold head_gives_no_nonce. simpl.
  intros -> Hw. run_post.
  destruct w as [| [r | e] w]; simpl.
  - by exists (errorString "connection refused").
  - apply bool_decide_eq_true in Hw. case_decide; [| done].
    by exists (errorString "Server did not respond with a proper nonce header.").
  - by exists e.
Qed.

(** X3. When [post] returns a response, the request was posted last, and
    the pool holds what it held before without its last nonce, which signed
    the request, followed by the nonce of the response, if it has one; a
    pool that was empty holds just the nonce of the response, if any. *)
Theorem post_pool_after_response (url content : string) (s s' : State) (resp : Response) :
  post url content s = (Ret (Some resp, None), s') ->
  nonces (the_jws s') = removelast (nonces (the_jws s)) ++ carried resp /\
  (nonces (the_jws s) = [] -> nonces (the_jws s') = carried resp) /\
  (forall ns n, nonces (the_jws s) = ns ++ [n] ->
     nonces (the_jws s') = ns ++ carried resp) /\
  exists body, last (trace s') = Some (EvPost url body).
Proof.
  intros H.
  assert (nonces (the_jws s') = removelast (nonces (the_jws s)) ++ carried resp /\
          exists body, last (trace s') = Some (EvPost url body)) as [Hpool Hlast].
  { revert H. destruct s as [[key ns] w tr]. unfold carried, nonce_of. run_post.
    destruct ns as [| n ns]; simpl.
    - destruct w as [| [r | e] w]; simpl; [done | | done].
      case_decide; simpl; [done |].
      destruct (jose_NewSigner key); simpl; [done |].
      destruct (jose_seal key _ content); simpl; [| done].
      destruct w as [| [r' | e'] w]; simpl; [done | | done].
      case_decide; simpl; intros [= <- <-]; simpl;
        (split; [by case_decide | eexists; by rewrite last_snoc]).
    - destruct (jose_NewSigner key); simpl; [done |].
      destruct (jose_seal key _ content); simpl; [| done].
      destruct w as [| [r' | e'] w]; simpl; [done | | done].
      case_decide; simpl; intros [= <- <-]; simpl;
        (split; [case_decide; try done; by rewrite ?app_nil_r
                | eexists; by rewrite last_snoc]). }
  split; [done |]. split; [| split; [| done]].
  - intros Hempty. by rewrite Hpool, Hempty.
  - intros ns n Hns. by rewrite Hpool, Hns, removelast_last.
Qed.

(** X4. When a request was posted and [post] returns an error, the nonce
    that signed the request is gone and none came back: the pool is one
    shorter than before, and empty if the nonce had to be fetched. *)
Theorem post_failed_request_uses_up_nonce (url content body : string) (s s' : State)
  (err : error) (added : list event) :
  post url content s = (Ret (None, Some err), s') ->
  trace s' = trace s ++ added ->
  EvPost url body ∈ added ->
  S (length (nonces (the_jws s'))) = Nat.max 1 (length (nonces (the_jws s))).
Proof.
  destruct s as [[key ns] w tr]. run_post.
  assert (forall (e : event) (evs : list event), tr ++ [e] = tr ++ evs -> evs = [e]) as Hone.
  { intros e evs H. by apply app_inv_head in H. }
  assert (forall evs : list event, tr = tr ++ evs -> evs = []) as Hnone.
  { intros evs H. rewrite <- (app_nil_r tr) in H at 1. by apply app_inv_head in H. }
  destruct ns as [| n ns]; simpl.
  - destruct w as [| [r | e] w]; simpl.
    + intros [= <- <-]. simpl. intros ->%Hone. set_solver.
    + case_decide; simpl.
      * intros [= <- <-]. simpl. intros ->%Hone. set_solver.
      * destruct (jose_NewSigner key); simpl.
        { intros [= <- <-]. simpl. intros ->%Hone. set_solver. }
        destruct (jose_seal key _ content); simpl.
        2:{ intros [= <- <-]. simpl. intros ->%Hone. set_solver. }
        destruct w as [| [r' | e'] w]; simpl;
          try (intros [= <- <-]; simpl; done).
        case_decide; simpl; done.
    + intros [= <- <-]. simpl. intros ->%Hone. set_solver.
  - pose proof (JwsFacts.length_removelast_S (n :: ns)) as Hlen. simpl in Hlen.
    specialize (Hlen ltac:(done)).
    destruct (jose_NewSigner key); simpl.
    { intros [= <- <-]. simpl. intros ->%Hnone. set_solver. }
    destruct (jose_seal key _ content); simpl.
    2:{ intros [= <- <-]. simpl. intros ->%Hnone. set_solver. }
    destruct w as [| [r' | e'] w]; simpl;
      try (intros [= <- <-]; simpl; intros _ _; lia).
    case_decide; simpl; done.
Qed.

(** X5. With a nonce in the pool [post] does not probe for one: it sends
    nothing, or the one POST request to the URL. *)
Theorem post_head_only_for_empty_pool (url content : string) (s : State) :
  nonces (the_jws s) <> [] ->
  trace (post url content s).2 = trace s \/
  exists body, trace (post url content s).2 = trace s ++ [EvPost url body].
Proof.
  destruct s as [[key ns] w tr]. run_post.
  destruct ns as [| n ns]; [done |]. intros _. simpl.
  destruct (jose_NewSigner key); simpl; [by left |].
  destruct (jose_seal key _ content); simpl; [| by left].
  destruct w as [| [r' | e'] w]; simpl; try (right; by eexists).
  case_decide; simpl; right; by eexists.
Qed.
End WithLib.

Lemma post_without_nonce_sends_nothing_witness :
  exists err,
    post (L := demo_lib) "https://ca.example/new-reg" "{}" (fresh []) =
      (Ret (None, Some (errorString
         ("Could not get a nonce for request: " +:+ "https://ca.example/new-reg" +:+
          String "010" (String "009" (String "009" "Error: ")) +:+ error_msg err))),
       {| the_jws := the_jws (fresh []); wire := tail (wire (fresh []));
          trace := trace (fresh []) ++ [EvHead "https://ca.example/new-reg"] |}).
Proof.
  apply (post_without_nonce_sends_nothing (L := demo_lib)); reflexivity.
Defined.

Lemma post_pool_after_response_witness :
  nonces (the_jws
    (post (L := demo_lib) "https://ca.example/new-reg" "{}"
       (mkState (mkJws (Some demo_key) ["n0"; "n1"])
          [Answer (response 201 [("Replay-Nonce", "n2")] "")] [])).2) =
    ["n0"] ++ carried (response 201 [("Replay-Nonce", "n2")] "").
Proof.
  destruct (post_pool_after_response (L := demo_lib) "https://ca.example/new-reg" "{}"
              (mkState (mkJws (Some demo_key) ["n0"; "n1"])
                 [Answer (response 201 [("Replay-Nonce", "n2")] "")] [])
              (post (L := demo_lib) "https://ca.example/new-reg" "{}"
                 (mkState (mkJws (Some demo_key) ["n0"; "n1"])
                    [Answer (response 201 [("Replay-Nonce", "n2")] "")] [])).2
              (response 201 [("Replay-Nonce", "n2")] "") eq_refl) as (_ & _ & H & _).
  apply (H ["n0"] "n1"). reflexivity.
Defined.

Lemma post_failed_request_uses_up_nonce_witness :
  S (length (nonces (the_jws
       (post (L := demo_lib) "https://ca.example/new-reg" "{}"
          (mkState (mkJws (Some demo_key) ["n0"; "n1"])
             [Failure (errorString "timeout")] [])).2))) = 2.
Proof.
  apply (post_failed_request_uses_up_nonce (L := demo_lib)
           "https://ca.example/new-reg" "{}" "{}.n1"
           (mkState (mkJws (Some demo_key) ["n0"; "n1"])
              [Failure (errorString "timeout")] [])
           _ (errorString "timeout")
           [EvPost "https://ca.example/new-reg" "{}.n1"]).
  - reflexivity.
  - reflexivity.
  - left.
Defined.

Lemma post_head_only_for_empty_pool_witness :
  trace (post (L := demo_lib) "https://ca.example/new-reg" "{}"
           (mkState (mkJws (Some demo_key) ["n1"]) [] [])).2 = [] \/
  exists body,
    trace (post (L := demo_lib) "https://ca.example/new-reg" "{}"
             (mkState (mkJws (Some demo_key) ["n1"]) [] [])).2 =
      [] ++ [EvPost "https://ca.example/new-reg" body].
Proof.
  apply (post_head_only_for_empty_pool (L := demo_lib) "https://ca.example/new-reg" "{}"
           (mkState (mkJws (Some demo_key) ["n1"]) [] [])).
  discriminate.
Defined.

End PostFacts.

(** ** [Register] and [AgreeToTos] (acme/client.go) *)

Module AccountFacts.
Import Http Messages World Jws Client GoStrings Regexp Spec Agreement Vocabulary.

Lemma parseLinks_from_outcome (links : list string) (linkMap : gmap string string) :
  (exists m, parseLinks_from linkMap links = Ret m) \/
  parseLinks_from linkMap links = Panic index_out_of_range.
Proof.
  revert linkMap. induction links as [| link links IH]; intros linkMap; simpl.
  - left. by eexists.
  - destruct (contains link ";") eqn:E.
    + destruct (LinkFacts.parseLink_returns linkMap link E) as [m ->]. apply IH.
    + right. by rewrite LinkFacts.parseLink_panics.
Qed.

Lemma log_headers_returns (headers : list (string * list string)) (s : State) :
  exists s', log_headers headers s = (Ret tt, s').
Proof.
  revert s. induction headers as [| [k v] rest IH]; intros s; simpl.
  - by eexists.
  - unfold mbind, M_bind. simpl. apply IH.
Qed.

Section WithLib.
Context `{L : Lib} `{T : TosLib}.

(** X6. [Register] returns a resource without an error or an error without
    a resource, and a resource it returns has a [NewAuthzURL] that is not
    empty; it never ends the process, and when it panics it is with an index
    out of range. *)
Theorem Register_outcome (c : Client) (s : State) :
  match (Register c s).1 with
  | Ret (Some reg, None) => NewAuthzURL reg <> ""
  | Ret (None, Some _) => True
  | Ret _ => False
  | Fatal _ => False
  | Panic msg => msg = index_out_of_range
  end.
Proof.
  unfold Register.
  destruct (json_Marshal_registrationMessage _) as [jsonBytes | err]; [| done].
  unfold mbind at 1. unfold M_bind. simpl.
  unfold mbind at 1. unfold M_bind.
  destruct (PostFacts.post_outcome (regURL c) jsonBytes
              {| the_jws := the_jws s; wire := wire s;
                 trace := trace s ++ [EvLog "Registering account ... "] |})
    as (s1 & [[resp ->] | [err ->]]); [| done].
  simpl. unfold mbind at 1. unfold M_bind. simpl.
  case_decide; [done |].
  destruct (json_Decode_Registration (Body resp)) as [serverReg [e |]]; [done |].
  unfold mbind, M_bind, lift. simpl.
  unfold parseLinks.
  destruct (parseLinks_from_outcome (Values (Header resp) "Link") ∅) as [[m ->] | ->];
    [| done].
  case_decide; done.
Qed.

(** X7. When the server answers a registration with a status other than
    409 and a body that decodes, and one of the [Link] header values has no
    [;], [Register] panics with an index out of range. *)
Theorem Register_panics_on_link_without_semicolon (c : Client) (s s1 : State)
  (jsonBytes : string) (resp : Response) (serverReg : Registration) :
  json_Marshal_registrationMessage
    {| Contact := ["mailto:" +:+ GetEmail (user c)] |} = inl jsonBytes ->
  post (regURL c) jsonBytes (log_print "Registering account ... " s).2
    = (Ret (Some resp, None), s1) ->
  StatusCode resp <> StatusConflict ->
  json_Decode_Registration (Body resp) = (serverReg, None) ->
  Exists (fun link => contains link ";" = false) (Values (Header resp) "Link") ->
  Register c s = (Panic index_out_of_range, s1).
Proof.
  intros Hm Hp Hs Hd Hl. unfold Register. rewrite Hm.
  unfold mbind at 1. unfold M_bind. simpl.
  unfold mbind at 1. unfold M_bind. simpl in Hp. rewrite Hp. simpl.
  unfold mbind at 1. unfold M_bind. simpl.
  case_decide; [done |]. rewrite Hd.
  unfold mbind, M_bind, lift, parseLinks.
  by rewrite (LinkFacts.parseLinks_from_Exists _ _ Hl).
Qed.

(** X8. Without a registration [AgreeToTos] panics on the nil pointer
    before anything is sent. With one it always returns, and whatever it
    returns, the registration of the user then has the terms-of-service URL
    as its agreement. *)
Theorem AgreeToTos_records_agreement (c : Client) (s : State) :
  match GetRegistration (user c) with
  | None => AgreeToTos c s = (Panic nil_dereference, s)
  | Some reg =>
      exists err, (AgreeToTos c s).1 = Ret (err, with_registration c (agree reg))
  end.
Proof.
  unfold AgreeToTos. destruct (GetRegistration (user c)) as [reg |]; [| done].
  unfold deref. unfold mbind at 1. unfold M_bind. simpl.
  destruct (json_Marshal_Registration _) as [jsonBytes | err]; [| by eexists].
  unfold mbind at 1. unfold M_bind. simpl.
  unfold mbind at 1. unfold M_bind.
  destruct (PostFacts.post_outcome (URI reg) jsonBytes
              {| the_jws := the_jws s; wire := wire s;
                 trace := trace s ++ [EvLog ("Agreement: " +:+ jsonBytes)] |})
    as (s1 & [[resp ->] | [err ->]]); [| by eexists].
  unfold logResponseBody, logResponseHeaders, mbind, M_bind. simpl.
  case_decide; [| by eexists]. simpl.
  match goal with |- context [log_headers ?h ?st] =>
    destruct (log_headers_returns h st) as [s2 ->]
  end.
  by eexists.
Qed.

(** X9. When the request of [AgreeToTos] gets an answer, the call returns
    nil exactly when the status of the answer is 202. *)
Theorem AgreeToTos_succeeds_on_202_only (c : Client) (s s1 : State)
  (reg : RegistrationResource) (jsonBytes : string) (resp : Response) :
  GetRegistration (user c) = Some reg ->
  json_Marshal_Registration (reg_Body (agree reg)) = inl jsonBytes ->
  post (URI reg) jsonBytes (log_print ("Agreement: " +:+ jsonBytes) s).2
    = (Ret (Some resp, None), s1) ->
  exists err, (AgreeToTos c s).1 = Ret (err, with_registration c (agree reg)) /\
    (err = None <-> StatusCode resp = StatusAccepted).
Proof.
  intros Hr Hm Hp. unfold AgreeToTos. rewrite Hr.
  unfold deref. unfold mbind at 1. unfold M_bind. simpl.
  simpl in Hm. rewrite Hm.
  unfold mbind at 1. unfold M_bind. simpl.
  unfold mbind at 1. unfold M_bind. simpl in Hp. rewrite Hp.
  unfold logResponseBody, logResponseHeaders, mbind, M_bind. simpl.
  case_decide.
  - simpl.
    match goal with |- context [log_headers ?h ?st] =>
      destruct (log_headers_returns h st) as [s2 ->]
    end.
    by eexists.
  - eexists. split; [done |]. split; done.
Qed.

End WithLib.

Lemma Register_panics_on_link_without_semicolon_witness :
  (Register (L := demo_lib) demo_client
     (fresh [Answer (response 200 [("Replay-Nonce", "n1")] "");
             Answer (response 201 [("Link", "<https://ca.example/new-authz>")] "{}")])).1 =
    Panic index_out_of_range.
Proof.
  erewrite (Register_panics_on_link_without_semicolon (L := demo_lib)).
  - reflexivity.
  - reflexivity.
  - reflexivity.
  - discriminate.
  - reflexivity.
  - left. reflexivity.
Defined.

Lemma AgreeToTos_succeeds_on_202_only_witness :
  exists err,
    (AgreeToTos (L := demo_lib) (T := demo_tos) registered_client
       (fresh [Answer (response 200 [("Replay-Nonce", "n1")] "");
               Answer (response 202 [] "{}")])).1 =
      Ret (err, with_registration registered_client
                  (agree (mkRegistrationResource (mkRegistration [] "")
                            "https://ca.example/reg/1" ""
                            "https://ca.example/new-authz"))) /\
    (err = None <-> StatusCode (response 202 [] "{}") = StatusAccepted).
Proof.
  eapply (AgreeToTos_succeeds_on_202_only (L := demo_lib) (T := demo_tos)).
  - reflexivity.
  - reflexivity.
  - reflexivity.
Defined.

End AccountFacts.

(** ** [chooseSolvers] and [solveChallenges] (acme/client.go) *)

Module SolverChoiceFacts.
Import Http Messages World Jws Client GoStrings Regexp Spec Agreement Vocabulary.

Lemma combination_solvers_app (c : Client) (auth : authorization)
  (ps qs : list nat) (m : gmap nat solver) :
  combination_solvers c auth (ps ++ qs) m =
    combination_solvers c auth ps m ≫= fun m1 => combination_solvers c auth qs m1.
Proof.
  revert m. induction ps as [| i ps IH]; intros m; simpl; [done |].
  unfold index. destruct (Challenges auth !! i) as [ch |]; simpl; [| done].
  destruct (Solvers c !! ch_Type ch); apply IH.
Qed.

Lemma positions_covered_S (c : Client) (auth : authorization) (n : nat) :
  positions_covered c auth (S n) =
    positions_covered c auth n && bool_decide (is_Some (solver_at c auth n)).
Proof.
  unfold positions_covered. rewrite seq_S, forallb_app. simpl. by rewrite andb_true_r.
Qed.

(** The inner loop on the positions [0 .. n-1], all of them in range. *)
Lemma combination_solvers_in_range (c : Client) (auth : authorization) (n : nat) :
  n <= length (Challenges auth) ->
  exists m,
    combination_solvers c auth (seq 0 n) ∅ = Ret m /\
    (forall i, m !! i = if decide (i < n) then solver_at c auth i else None) /\
    size m <= n /\
    (size m = n <-> positions_covered c auth n = true).
Proof.
  induction n as [| n IH]; intros Hn.
  - exists ∅. simpl. repeat split; try done.
    all: try (intros i; by case_decide).
  - destruct IH as (m & Hm & Hlook & Hsize & Hcov); [lia |].
    rewrite seq_S, combination_solvers_app, Hm. simpl.
    destruct (Challenges auth !! n) as [ch |] eqn:Hch.
    2:{ apply lookup_ge_None in Hch. lia. }
    unfold index. rewrite Hch. simpl.
    assert (solver_at c auth n = Solvers c !! ch_Type ch) as Hat
      by (unfold solver_at; by rewrite Hch).
    assert (m !! n = None) as Hnone by (rewrite Hlook; case_decide; [lia | done]).
    rewrite positions_covered_S.
    destruct (Solvers c !! ch_Type ch) as [sv |] eqn:Hs.
    + exists (<[n := sv]> m). split; [done |]. split; [| split].
      * intros i. rewrite lookup_insert. case_decide; subst.
        -- case_decide; [by rewrite Hat | lia].
        -- rewrite Hlook. repeat case_decide; try done; lia.
      * rewrite map_size_insert_None by done. lia.
      * rewrite map_size_insert_None by done. rewrite Hat.
        rewrite bool_decide_eq_true_2 by eauto. rewrite andb_true_r.
        rewrite <- Hcov. lia.
    + exists m. split; [done |]. split; [| split].
      * intros i. rewrite Hlook. repeat case_decide; try done; try lia.
        assert (i = n) as -> by lia. by rewrite Hat.
      * lia.
      * rewrite Hat. rewrite bool_decide_eq_false_2 by (by intros [? ?]).
        rewrite andb_false_r. split; [lia | done].
Qed.

Lemma combination_solvers_out_of_range (c : Client) (auth : authorization) (n : nat) :
  length (Challenges auth) < n ->
  combination_solvers c auth (seq 0 n) ∅ = Panic index_out_of_range.
Proof.
  intros Hn.
  replace n with (length (Challenges auth) + S (n - S (length (Challenges auth)))) by lia.
  rewrite seq_app, combination_solvers_app.
  destruct (combination_solvers_in_range c auth (length (Challenges auth)))
    as (m & -> & _); [lia |].
  simpl. unfold index.
  by rewrite (proj2 (lookup_ge_None (Challenges auth) (length (Challenges auth)))).
Qed.

Lemma chooseSolvers_from_in_range (c : Client) (auth : authorization)
  (combinations : list (list Z)) :
  Forall (fun comb => length comb <= length (Challenges auth)) combinations ->
  match List.find (fun comb => positions_covered c auth (length comb)) combinations with
  | Some comb =>
      exists m, chooseSolvers_from c auth combinations = Ret (Some m) /\
        forall i, m !! i = if decide (i < length comb) then solver_at c auth i else None
  | None => chooseSolvers_from c auth combinations = Ret None
  end.
Proof.
  induction 1 as [| comb rest Hc _ IH]; simpl; [done |].
  destruct (combination_solvers_in_range c auth (length comb) Hc)
    as (m & -> & Hlook & Hsize & Hcov). simpl.
  destruct (positions_covered c auth (length comb)) eqn:E.
  - rewrite (proj2 (Nat.eqb_eq _ _) (proj2 Hcov eq_refl)). by exists m.
  - destruct (size m =? length comb)%nat eqn:E'; [| apply IH].
    apply Nat.eqb_eq, Hcov in E'. done.
Qed.




Lemma find_all_false {A : Type} (f : A -> bool) (l : list A) :
  Forall (fun x => f x = false) l -> List.find f l = None.
Proof. induction 1 as [| x l Hx _ IH]; simpl; [done |]. by rewrite Hx. Qed.

(** X10. When no combination is longer than the list of challenges,
    [chooseSolvers] returns the map for the first combination such that
    each of the first [len(combination)] challenges has a registered solver,
    whatever indices the combination lists; the map holds, at each of those
    positions, the solver registered for the type of the challenge there.
    When there is no such combination it returns nil. *)
Theorem chooseSolvers_first_covered_prefix (c : Client) (auth : authorization) :
  Forall (fun comb => length comb <= length (Challenges auth)) (Combinations auth) ->
  match List.find (fun comb => positions_covered c auth (length comb))
          (Combinations auth) with
  | Some comb =>
      exists m, chooseSolvers c auth = Ret (Some m) /\
        forall i, m !! i = if decide (i < length comb) then solver_at c auth i else None
  | None => chooseSolvers c auth = Ret None
  end.
Proof. apply chooseSolvers_from_in_range. Qed.

(** X11. When the combinations before it are passed over and a combination
    has more entries than there are challenges, [chooseSolvers] panics with
    an index out of range. *)
Theorem chooseSolvers_panics_on_long_combination (c : Client) (auth : authorization)
  (earlier later : list (list Z)) (comb : list Z) :
  Combinations auth = earlier ++ comb :: later ->
  Forall (fun e => length e <= length (Challenges auth) /\
                   positions_covered c auth (length e) = false) earlier ->
  length (Challenges auth) < length comb ->
  chooseSolvers c auth = Panic index_out_of_range.
Proof.
  intros Hc He Hl. unfold chooseSolvers. rewrite Hc. clear Hc.
  induction He as [| e earlier [He1 He2] _ IH]; simpl.
  - by rewrite combination_solvers_out_of_range.
  - destruct (combination_solvers_in_range c auth (length e) He1)
      as (m & -> & _ & _ & Hcov). simpl.
    destruct (size m =? length e)%nat eqn:E; [| done].
    apply Nat.eqb_eq, Hcov in E. congruence.
Qed.


Section WithLib.
Context `{L : Lib}.

(** X13. A client returned by [NewClient] has no solver: for an
    authorization whose combinations are not empty and not longer than the
    list of challenges, [solveChallenges] returns the error that no solvers
    could be determined for its domain. *)
Theorem NewClient_registers_no_solver (caURL optPort : string) (usr : User)
  (c : Client) (s s' : State) (authz : authorizationResource)
  (rest : list authorizationResource) :
  (NewClient caURL usr optPort s).1 = Ret c ->
  Forall (fun comb => 0 < length comb <= length (Challenges (authz_Body authz)))
    (Combinations (authz_Body authz)) ->
  Solvers c = ∅ /\
  solveChallenges c (authz :: rest) s' =
    (Ret (Some (errorString ("Could not determine solvers for " +:+ Domain authz))), s').
Proof.
  intros Hc Hcombs.
  assert (Solvers c = ∅) as Hs.
  { revert Hc. unfold NewClient. destruct (GetPrivateKey usr) as [key |]; [| done].
    unfold mbind, M_bind, deref, emit. simpl.
    destruct (rsa_Validate key); simpl; [done |]. by intros [= <-]. }
  split; [done |]. apply SolverFacts.solveChallenges_no_solver.
  pose proof (chooseSolvers_from_in_range c (authz_Body authz)
                (Combinations (authz_Body authz))) as H.
  rewrite find_all_false in H.
  - apply H. eapply Forall_impl; [exact Hcombs |]. simpl. lia.
  - eapply Forall_impl; [exact Hcombs |]. intros comb Hlen. simpl in Hlen.
    destruct (length comb) as [| n] eqn:E; [lia |].
    unfold positions_covered. simpl.
    unfold solver_at. destruct (Challenges (authz_Body authz) !! 0); [| done].
    by rewrite Hs, lookup_empty.
Qed.

End WithLib.

Lemma chooseSolvers_first_covered_prefix_witness :
  exists m,
    chooseSolvers one_solver_client (two_challenges [[1%Z; 0%Z]; [1%Z]]) = Ret (Some m) /\
    forall i, m !! i =
      if decide (i < 1) then solver_at one_solver_client (two_challenges [[1%Z; 0%Z]; [1%Z]]) i
      else None.
Proof.
  apply (chooseSolvers_first_covered_prefix one_solver_client
           (two_challenges [[1%Z; 0%Z]; [1%Z]])).
  repeat constructor.
Defined.

Lemma chooseSolvers_panics_on_long_combination_witness :
  chooseSolvers one_solver_client (two_challenges [[1%Z; 0%Z]; [0%Z; 1%Z; 1%Z]]) =
    Panic index_out_of_range.
Proof.
  apply (chooseSolvers_panics_on_long_combination one_solver_client
           (two_challenges [[1%Z; 0%Z]; [0%Z; 1%Z; 1%Z]])
           [[1%Z; 0%Z]] [] [0%Z; 1%Z; 1%Z]).
  - reflexivity.
  - constructor; [split; [simpl; lia | reflexivity] | constructor].
  - simpl. lia.
Defined.


Lemma NewClient_registers_no_solver_witness :
  Solvers (mkClient "https://ca.example/new-reg" demo_user ∅) = ∅ /\
  solveChallenges (mkClient "https://ca.example/new-reg" demo_user ∅)
    [mkAuthorizationResource (two_challenges [[0%Z]; [0%Z; 1%Z]])
       "https://ca.example/new-cert" "example.com"] (fresh []) =
    (Ret (Some (errorString ("Could not determine solvers for " +:+ "example.com"))),
     fresh []).
Proof.
  apply (NewClient_registers_no_solver (L := demo_lib) "https://ca.example/new-reg" ""
           demo_user _ (fresh [])).
  - reflexivity.
  - repeat constructor.
Defined.

End SolverChoiceFacts.

(** ** [getChallenges] and [ObtainCertificates] (acme/client.go) *)

Module ReceiveFacts.
Import Http Messages World Jws Client GoStrings Regexp Spec Agreement Vocabulary.

Lemma receive_zero (acts : list action) (responses : list authorizationResource)
  (s : State) :
  receive acts 0 responses s = (Ret (responses, acts), s).
Proof. by destruct acts. Qed.



Lemma interleave_single (sched : list nat) (t : list action) :
  interleave sched [t] = t.
Proof.
  revert t. induction sched as [| k sched IH]; intros t; simpl.
  - by rewrite app_nil_r.
  - destruct k as [| k]; simpl.
    + destruct t as [| a acts]; [apply IH |]. by rewrite IH.
    + apply IH.
Qed.

Section WithLib.
Context `{L : Lib}.




(** X16. For a single domain whose request is answered with a status other
    than 201, the goroutine sends the error with the status and, as no
    [return] follows, goes on. Under every schedule the run of
    [ObtainCertificates] is then ended by that goroutine and does not return
    nil: [Fatalln] ends it when the response has no [next] link, the panic
    of a send on a closed channel when it has one, and the panic of
    [parseLinks] when that panics. *)
Theorem ObtainCertificates_one_domain_rejected
  (posted : string -> string -> option Response * option error) (sched : list nat)
  (c : Client) (domain jsonBytes : string) (reg : RegistrationResource)
  (resp : Response) (s : State) :
  json_Marshal_authorization
    {| Identifier := {| id_Type := "dns"; id_Value := domain |};
       Challenges := []; Combinations := [] |} = inl jsonBytes ->
  GetRegistration (user c) = Some reg ->
  posted (NewAuthzURL reg) jsonBytes = (Some resp, None) ->
  StatusCode resp <> StatusCreated ->
  (ObtainCertificates posted sched c [domain] s).1 =
    match parseLinks (Values (Header resp) "Link") with
    | Ret links =>
        if decide (map_get links "next" = "") then
          Fatal "The server did not provide enough information to proceed."
        else Panic send_on_closed_channel
    | Panic msg | Fatal msg => Panic msg
    end.
Proof.
  intros H1 H2 H3 H4. unfold ObtainCertificates, getChallenges. simpl.
  rewrite interleave_single. unfold goroutine. rewrite H1, H2, H3.
  case_decide; [done |]. simpl. unfold mbind, M_bind. simpl.
  rewrite receive_zero.
  destruct (parseLinks (Values (Header resp) "Link")) as [links | msg | msg]; simpl;
    try done.
  case_decide; simpl; [done |].
  by destruct (json_Decode_authorization (Body resp)) as [authz [e |]].
Qed.

(** X17. For a single domain whose request is answered with 201 but
    without a [next] link, [getChallenges] ends the process with the fatal
    log line. *)
Theorem getChallenges_one_domain_without_next_link
  (posted : string -> string -> option Response * option error) (sched : list nat)
  (c : Client) (domain jsonBytes : string) (reg : RegistrationResource)
  (resp : Response) (links : gmap string string) (s : State) :
  json_Marshal_authorization
    {| Identifier := {| id_Type := "dns"; id_Value := domain |};
       Challenges := []; Combinations := [] |} = inl jsonBytes ->
  GetRegistration (user c) = Some reg ->
  posted (NewAuthzURL reg) jsonBytes = (Some resp, None) ->
  StatusCode resp = StatusCreated ->
  parseLinks (Values (Header resp) "Link") = Ret links ->
  links !! "next" = None ->
  (getChallenges posted sched c [domain] s).1 =
    Fatal "The server did not provide enough information to proceed." /\
  trace (getChallenges posted sched c [domain] s).2 =
    trace s ++ [EvLog "The server did not provide enough information to proceed."].
Proof.
  intros H1 H2 H3 H4 H5 H6. unfold getChallenges. simpl.
  rewrite interleave_single. unfold goroutine. rewrite H1, H2, H3, H5.
  case_decide; [| done]. unfold map_get. rewrite H6. simpl. done.
Qed.

End WithLib.



Lemma ObtainCertificates_one_domain_rejected_witness :
  (ObtainCertificates (L := demo_lib) posted_forbidden [0; 0] registered_client
     ["a.example.com"] (fresh [])).1 =
    Fatal "The server did not provide enough information to proceed.".
Proof.
  apply (ObtainCertificates_one_domain_rejected (L := demo_lib) posted_forbidden [0; 0]
           registered_client "a.example.com" "a.example.com"
           (mkRegistrationResource (mkRegistration [] "") "https://ca.example/reg/1"
              "" "https://ca.example/new-authz")
           (response 403 [] "forbidden") (fresh [])).
  - reflexivity.
  - reflexivity.
  - reflexivity.
  - discriminate.
Defined.

Lemma getChallenges_one_domain_without_next_link_witness :
  (getChallenges (L := demo_lib) posted_without_link [] registered_client
     ["a.example.com"] (fresh [])).1 =
    Fatal "The server did not provide enough information to proceed.".
Proof.
  eapply (getChallenges_one_domain_without_next_link (L := demo_lib)).
  - reflexivity.
  - reflexivity.
  - reflexivity.
  - reflexivity.
  - reflexivity.
  - reflexivity.
Defined.

End ReceiveFacts.

(** ** [parseLinks] and quotes (acme/client.go) *)

Module QuoteFacts.
Import Http Messages World Jws Client GoStrings Regexp Spec Agreement Vocabulary.
#[local] Arguments String.append !s1 s2 : simpl nomatch.

Lemma match_here_two_quotes (s : string) (x : string * gmap nat string) :
  match_here slver s = Some x -> 2 <= count_byte dquote s.
Proof.
  unfold match_here. change slver with (Cat (Group 1 (Many1 dot)) slver_tail).
  destruct s as [| c s]; [done |].
  rewrite LinkMapFacts.run_first_group. destruct (dot c); [| done].
  intros (u & rest & -> & H)%LinkMapFacts.many_inv.
  apply LinkMapFacts.slver_tail_two_quotes in H.
  simpl. rewrite LinkMapFacts.count_byte_append. lia.
Qed.

Lemma find_two_quotes (s : string) (x : string * gmap nat string) :
  find slver s = Some x -> 2 <= count_byte dquote s.
Proof.
  induction s as [| c s IH].
  - simpl. by destruct (match_here slver "") eqn:E; [apply match_here_two_quotes in E |].
  - unfold find; fold find.
    destruct (match_here slver (String c s)) eqn:E.
    + intros _. by apply match_here_two_quotes in E.
    + intros H%IH. simpl. lia.
Qed.

Lemma count_byte_filter_bytes (c : ascii) (p : ascii -> bool) (s : string) :
  count_byte c (filter_bytes p s) <= count_byte c s.
Proof. induction s as [| a s IH]; simpl; [done |]. destruct (p a); simpl; lia. Qed.

Lemma count_byte_Split (c sep : ascii) (s piece : string) :
  piece ∈ Split s sep -> count_byte c piece <= count_byte c s.
Proof.
  revert piece. induction s as [| a s IH]; intros piece; simpl.
  - intros ->%list_elem_of_singleton. done.
  - destruct (Ascii.eqb a sep).
    + intros [-> | H]%elem_of_cons; simpl; [lia |]. specialize (IH _ H). lia.
    + destruct (Split s sep) as [| p0 ps] eqn:E.
      * intros ->%list_elem_of_singleton. simpl. lia.
      * intros [-> | H]%elem_of_cons; simpl.
        -- specialize (IH p0 ltac:(left)). lia.
        -- specialize (IH piece ltac:(by right)). lia.
Qed.

Lemma parseLink_without_quotes (linkMap : gmap string string) (link : string) :
  contains link ";" = true -> count_byte dquote link < 2 ->
  parseLink linkMap link = Ret linkMap.
Proof.
  intros Hsemi Hq. unfold parseLink.
  destruct (proj1 (LinkFacts.part1_in_bounds link) Hsemi) as [part1 Hp].
  rewrite Hp. unfold mbind at 1. unfold outcome_bind.
  assert (find slver part1 = None) as Hnone.
  { destruct (find slver part1) eqn:E; [| done].
    apply find_two_quotes in E.
    unfold index in Hp. destruct (_ !! 1) as [piece |] eqn:El; [| done].
    injection Hp as ->. apply list_elem_of_lookup_2 in El.
    apply (count_byte_Split dquote) in El.
    pose proof (count_byte_filter_bytes dquote (fun c => negb (aBrkt c)) link).
    unfold ReplaceAllString_empty in El. lia. }
  unfold FindStringSubmatch. by rewrite Hnone.
Qed.

(** X18. Header values that contain a [;] but fewer than two double quotes,
    such as a relation written without quotes, add nothing to the map:
    [parseLinks] returns the empty map for them. *)
Theorem parseLinks_ignores_unquoted_relations (links : list string) :
  Forall (fun link => contains link ";" = true /\ count_byte dquote link < 2) links ->
  parseLinks links = Ret ∅.
Proof.
  unfold parseLinks. generalize (∅ : gmap string string).
  induction 1 as [| link links [Hs Hq] _ IH]; simpl; [done |].
  by rewrite parseLink_without_quotes.
Qed.

Lemma parseLinks_ignores_unquoted_relations_witness :
  parseLinks ["<https://ca.example/new-authz>;rel=next";
              "<https://ca.example/terms>; rel=terms-of-service"] = Ret ∅.
Proof.
  apply parseLinks_ignores_unquoted_relations.
  repeat (constructor; [split; [reflexivity | simpl; lia] |]). constructor.
Defined.

End QuoteFacts.

(** ** [Get] and [UpdateForCSR] (package [api]) *)

Module OrderServiceFacts.
Import Http GoStrings Api Spec Vocabulary.

Lemma alphabet_url_safe (n : nat) :
  n < 64 -> url_safe (default "000"%char (String.get n Base64.encodeURL)) = true.
Proof.
  intros H. do 64 (destruct n as [| n]; [reflexivity |]). lia.
Qed.

Lemma digit_url_safe (v : N) : url_safe (Base64.digit v) = true.
Proof.
  unfold Base64.digit. apply alphabet_url_safe.
  change 63%N with (N.ones 6). rewrite N.land_ones.
  pose proof (N.mod_upper_bound v (2 ^ 6) ltac:(done)). simpl in *. lia.
Qed.

Lemma EncodeToString_url_safe_bytes (src : string) :
  all_bytes url_safe (Base64.RawURLEncoding_EncodeToString src) = true.
Proof.
  assert (forall n src, String.length src <= n ->
            all_bytes url_safe (Base64.RawURLEncoding_EncodeToString src) = true) as H.
  { clear src. induction n as [| n IH]; intros src Hn.
    - destruct src; [reflexivity | simpl in Hn; lia].
    - destruct src as [| a0 [| a1 [| a2 rest]]]; [reflexivity | | |].
      + cbn [Base64.RawURLEncoding_EncodeToString all_bytes]. by rewrite !digit_url_safe.
      + cbn [Base64.RawURLEncoding_EncodeToString all_bytes]. by rewrite !digit_url_safe.
      + cbn [Base64.RawURLEncoding_EncodeToString all_bytes]. rewrite !digit_url_safe.
        rewrite IH by (simpl in Hn; lia). done. }
  by apply (H (String.length src)).
Qed.

(** X20. The text [UpdateForCSR] sends for a CSR of [n] bytes has only bytes
    of the URL-safe alphabet (no padding sign) and is [(4n+2)/3] bytes
    long. *)
Theorem UpdateForCSR_sends_unpadded_url_safe_text (orderURL csr : string) (core : Core) :
  exists text,
    sent (UpdateForCSR orderURL csr core).2 =
      sent core ++ [(orderURL, CSRPayload {| Csr := text |})] /\
    all_bytes url_safe text = true /\
    String.length text = (4 * String.length csr + 2) / 3.
Proof.
  exists (Base64.RawURLEncoding_EncodeToString csr). split; [| split].
  - unfold UpdateForCSR, core_post.
    destruct (answers core) as [| [resp decoded | err] rest]; simpl; try done.
    by case_decide.
  - apply EncodeToString_url_safe_bytes.
  - apply Base64Facts.EncodeToString_length.
Qed.

(** X19. For the empty URL [Get] returns an error and sends nothing. For
    any other URL it sends one request without payload to that URL and
    returns the decoded order with an empty location, or the error of the
    request with an empty order. *)
Theorem Get_sends_one_request_unless_url_empty (orderURL : string) (core : Core) :
  (orderURL = "" ->
     Api.Get orderURL core =
       ((zero_ExtendedOrder, Some (PlainError (errorString "order[get]: empty URL"))),
        core)) /\
  (orderURL <> "" ->
     sent (Api.Get orderURL core).2 = sent core ++ [(orderURL, NoPayload)] /\
     answers (Api.Get orderURL core).2 = tail (answers core) /\
     match answers core with
     | CoreAnswer resp decoded :: _ =>
         (Api.Get orderURL core).1 = ({| order := decoded; Location := "" |}, None)
     | CoreFailure err :: _ =>
         (Api.Get orderURL core).1 = (zero_ExtendedOrder, Some (PlainError err))
     | [] =>
         (Api.Get orderURL core).1 =
           (zero_ExtendedOrder, Some (PlainError (errorString "connection refused")))
     end).
Proof.
  split.
  - intros ->. reflexivity.
  - intros H. unfold Api.Get.
    destruct orderURL as [| a u]; [done |]. simpl.
    unfold core_postAsGet, core_post.
    destruct (answers core) as [| [resp decoded | err] rest]; simpl; done.
Qed.

Lemma Get_sends_one_request_unless_url_empty_witness :
  sent (Api.Get "https://ca.example/order/1"
          (mkCore "https://ca.example/new-order" [] [])).2 =
    [] ++ [("https://ca.example/order/1", NoPayload)].
Proof.
  destruct (Get_sends_one_request_unless_url_empty "https://ca.example/order/1"
              (mkCore "https://ca.example/new-order" [] [])) as [_ H].
  apply H. discriminate.
Defined.

End OrderServiceFacts.

(** ** The Route 53 provider (acme/dns_challenge_route53.go) *)

Module Route53Facts.
Import Route53 Vocabulary.
#[local] Arguments String.append !s1 s2 : simpl nomatch.

Lemma drop_bytes_append (p s : string) : drop_bytes (String.length p) (p +:+ s) = s.
Proof. induction p; simpl; [by destruct s | done]. Qed.

Lemma drop_bytes_split (n : nat) (s : string) :
  n <= String.length s ->
  exists p, s = p +:+ drop_bytes n s /\ String.length p = n.
Proof.
  revert s. induction n as [| n IH]; intros s Hn.
  - exists "". by destruct s.
  - destruct s as [| a s]; simpl in *; [lia |].
    destruct (IH s ltac:(lia)) as (p & Hp & Hl).
    exists (String a p). simpl. split; [by rewrite <- Hp | lia].
Qed.

(** [HasSuffix] holds exactly for the strings that end with the suffix. *)
Lemma HasSuffix_spec (s suffix : string) :
  HasSuffix s suffix = true <-> exists p, s = p +:+ suffix.
Proof.
  unfold HasSuffix. split.
  - intros [Hlen Heq]%andb_prop. apply Nat.leb_le in Hlen. apply String.eqb_eq in Heq.
    destruct (drop_bytes_split (String.length s - String.length suffix) s) as (p & Hp & _);
      [lia |].
    exists p. by rewrite Heq in Hp.
  - intros [p ->]. rewrite LinkMapFacts.length_append.
    replace (String.length p + String.length suffix - String.length suffix)
      with (String.length p) by lia.
    rewrite drop_bytes_append, String.eqb_refl, andb_true_r.
    apply Nat.leb_le. lia.
Qed.

Lemma longest_zone_spec (fqdn : string) (zones : list HostedZone) (h0 : HostedZone) :
  let hz := longest_zone fqdn zones h0 in
  (hz = h0 \/
   (hz ∈ zones /\ HasSuffix fqdn (Name hz) = true /\
    String.length (Name h0) < String.length (Name hz))) /\
  String.length (Name h0) <= String.length (Name hz) /\
  Forall (fun z => HasSuffix fqdn (Name z) = true ->
                   String.length (Name z) <= String.length (Name hz)) zones.
Proof.
  revert h0. induction zones as [| zone rest IH]; intros h0; simpl.
  - split; [by left |]. split; [lia | constructor].
  - destruct (HasSuffix fqdn (Name zone)) eqn:Hs.
    + destruct (String.length (Name h0) <? String.length (Name zone))%nat eqn:Hl.
      * apply Nat.ltb_lt in Hl.
        destruct (IH zone) as (Hor & Hle & Hall).
        split; [| split; [lia | constructor; [intros _; lia | exact Hall]]].
        right. destruct Hor as [Heq | (Hin & Hsuf & Hlt)].
        -- rewrite Heq. split; [left |]. split; [exact Hs | exact Hl].
        -- split; [by right |]. split; [exact Hsuf | lia].
      * apply Nat.ltb_ge in Hl.
        destruct (IH h0) as (Hor & Hle & Hall).
        split; [| split; [exact Hle | constructor; [intros _; lia | exact Hall]]].
        destruct Hor as [Heq | (Hin & Hsuf & Hlt)]; [by left |].
        right. split; [by right |]. split; [exact Hsuf | exact Hlt].
    + destruct (IH h0) as (Hor & Hle & Hall).
      split; [| split; [exact Hle | constructor; [intros ?; congruence | exact Hall]]].
      destruct Hor as [Heq | (Hin & Hsuf & Hlt)]; [by left |].
      right. split; [by right |]. split; [exact Hsuf | exact Hlt].
Qed.

(** What [getHostedZoneID] returns is read off the answer to its listing. *)
Lemma getHostedZoneID_result (r : DNSProviderRoute53) (fqdn : string) :
  (getHostedZoneID r fqdn).1 =
    match (ListHostedZones (client r)).1 with
    | inr err => ("", Some err)
    | inl zones =>
        if String.eqb (ID (longest_zone fqdn zones zero_HostedZone)) "" then
          ("", Some (errorString ("No Route53 zone found for domain " +:+ fqdn)))
        else (ID (longest_zone fqdn zones zero_HostedZone), None)
    end.
Proof.
  unfold getHostedZoneID.
  destruct (ListHostedZones (client r)) as [[zones | err] client']; simpl; [| done].
  by destruct (String.eqb _ _).
Qed.

(** The lookup is one listing and nothing else. *)
Lemma getHostedZoneID_provider (r : DNSProviderRoute53) (fqdn : string) :
  (getHostedZoneID r fqdn).2 = {| client := (ListHostedZones (client r)).2 |}.
Proof.
  unfold getHostedZoneID.
  destruct (ListHostedZones (client r)) as [[zones | err] client']; simpl; [| done].
  by destruct (String.eqb _ _).
Qed.

Lemma ListHostedZones_client (r : Route53) :
  submitted (ListHostedZones r).2 = submitted r /\
  verdicts (ListHostedZones r).2 = verdicts r /\
  listings (ListHostedZones r).2 = tail (listings r).
Proof. destruct r as [a g ls vs sub]. unfold ListHostedZones. simpl. by destruct ls. Qed.

(** X21. An ID returned by [getHostedZoneID] is not empty and is the ID of a
    listed zone whose name is not empty and ends the given name, and no
    listed zone whose name ends the given name has a longer name. *)
Theorem getHostedZoneID_longest_matching_zone (r : DNSProviderRoute53)
  (fqdn id : string) (zones : list HostedZone) :
  (ListHostedZones (client r)).1 = inl zones ->
  (getHostedZoneID r fqdn).1 = (id, None) ->
  exists zone,
    zone ∈ zones /\ ID zone = id /\ id <> "" /\
    (exists p, fqdn = p +:+ Name zone) /\ Name zone <> "" /\
    Forall (fun z => (exists p, fqdn = p +:+ Name z) ->
                     String.length (Name z) <= String.length (Name zone)) zones.
Proof.
  intros Hz. rewrite getHostedZoneID_result, Hz.
  destruct (longest_zone_spec fqdn zones zero_HostedZone) as (Hor & _ & Hall).
  destruct (String.eqb (ID (longest_zone fqdn zones zero_HostedZone)) "") eqn:E; [done |].
  intros [= <-]. apply String.eqb_neq in E.
  destruct Hor as [Heq | (Hin & Hsuf & Hlt)].
  { rewrite Heq in E. done. }
  exists (longest_zone fqdn zones zero_HostedZone).
  repeat split; try done.
  - by apply HasSuffix_spec.
  - intros Hn. rewrite Hn in Hlt. simpl in Hlt. lia.
  - eapply Forall_impl; [exact Hall |]. intros z Hz' Hp. by apply Hz', HasSuffix_spec.
Qed.

(** X22. When every listed zone has an ID, [getHostedZoneID] returns an ID
    if some listed zone has a name that is not empty and ends the given
    name, and the error that no zone was found otherwise. *)
Theorem getHostedZoneID_finds_zone_iff_one_serves (r : DNSProviderRoute53)
  (fqdn : string) (zones : list HostedZone) :
  (ListHostedZones (client r)).1 = inl zones ->
  Forall (fun z => ID z <> "") zones ->
  (existsb (serves fqdn) zones = true ->
     exists id, (getHostedZoneID r fqdn).1 = (id, None)) /\
  (existsb (serves fqdn) zones = false ->
     (getHostedZoneID r fqdn).1 =
       ("", Some (errorString ("No Route53 zone found for domain " +:+ fqdn)))).
Proof.
  intros Hz Hids. rewrite getHostedZoneID_result, Hz.
  destruct (longest_zone_spec fqdn zones zero_HostedZone) as (Hor & _ & Hall).
  split.
  - intros (z & Hin & Hserves)%existsb_exists.
    apply andb_prop in Hserves as [Hsuf Hne].
    apply negb_true_iff, String.eqb_neq in Hne.
    apply list_elem_of_In in Hin.
    destruct Hor as [Heq | (Hin' & _ & _)].
    + exfalso. pose proof (proj1 (Forall_forall _ _) Hall z Hin Hsuf) as Hlen.
      rewrite Heq in Hlen. simpl in Hlen. destruct (Name z); [done | simpl in Hlen; lia].
    + pose proof (proj1 (Forall_forall _ _) Hids _ Hin') as Hid.
      apply String.eqb_neq in Hid. rewrite Hid. by eexists.
  - intros Hnone.
    destruct Hor as [-> | (Hin' & Hsuf & Hlt)]; [done |].
    exfalso.
    assert (existsb (serves fqdn) zones = true) as Hyes; [| congruence].
    apply existsb_exists. exists (longest_zone fqdn zones zero_HostedZone).
    split; [by apply list_elem_of_In |].
    unfold serves. rewrite Hsuf. simpl. apply negb_true_iff, String.eqb_neq.
    intros Hn. rewrite Hn in Hlt. simpl in Hlt. lia.
Qed.

(** A call of [changeRecord] whose lookup finds a zone sends one request, to
    that zone, and has listed the zones once. *)
Lemma changeRecord_found (r : DNSProviderRoute53) (action fqdn value id : string)
  (ttl : Z) :
  (getHostedZoneID r fqdn).1 = (id, None) ->
  submitted (client (changeRecord r action fqdn value ttl).2) =
    submitted (client r) ++ [(id, txt_change action fqdn value ttl)] /\
  listings (client (changeRecord r action fqdn value ttl).2) =
    tail (listings (client r)).
Proof.
  intros Hid. unfold changeRecord.
  pose proof (getHostedZoneID_provider r fqdn) as Hp.
  destruct (getHostedZoneID r fqdn) as [[id' e] r']. simpl in Hid, Hp.
  injection Hid as -> ->. subst r'. simpl.
  destruct (ListHostedZones_client (client r)) as (Hs & _ & Hl).
  by rewrite Hs, Hl.
Qed.

(** X23. [CreateTXTRecord] followed by [RemoveTXTRecord] with the same
    arguments lists the zones twice, once in each call. When both lookups
    find a zone, exactly two requests are sent: the UPSERT of the TXT record
    set with the one value and the given TTL to the zone of the first
    lookup, and then the DELETE of the same record set to the zone of the
    second lookup. The two zones are the same when the service gives the
    same answer to both listings. *)
Theorem RemoveTXTRecord_after_CreateTXTRecord (r : DNSProviderRoute53)
  (fqdn value id1 id2 : string) (ttl : Z) :
  (getHostedZoneID r fqdn).1 = (id1, None) ->
  (getHostedZoneID (CreateTXTRecord r fqdn value ttl).2 fqdn).1 = (id2, None) ->
  submitted (client (RemoveTXTRecord (CreateTXTRecord r fqdn value ttl).2
                       fqdn value ttl).2) =
    submitted (client r) ++
      [(id1, txt_change "UPSERT" fqdn value ttl);
       (id2, txt_change "DELETE" fqdn value ttl)] /\
  listings (client (RemoveTXTRecord (CreateTXTRecord r fqdn value ttl).2
                      fqdn value ttl).2) =
    tail (tail (listings (client r))) /\
  ((ListHostedZones (client (CreateTXTRecord r fqdn value ttl).2)).1 =
     (ListHostedZones (client r)).1 -> id2 = id1).
Proof.
  intros H1 H2. unfold RemoveTXTRecord, CreateTXTRecord in *.
  destruct (changeRecord_found r "UPSERT" fqdn value id1 ttl H1) as [Hs1 Hl1].
  destruct (changeRecord_found _ "DELETE" fqdn value id2 ttl H2) as [Hs2 Hl2].
  rewrite Hs2, Hs1, Hl2, Hl1, <- app_assoc. split; [done |]. split; [done |].
  intros Hsame. rewrite getHostedZoneID_result in H1, H2. rewrite Hsame in H2.
  congruence.
Qed.

(** X24. When the zone lookup fails (the listing fails or no zone is found),
    [CreateTXTRecord] and [RemoveTXTRecord] return that error and send no
    request: the provider is left as the lookup left it, with nothing added
    to the requests sent and no answer to a change used up. *)
Theorem TXT_record_calls_without_zone_submit_nothing (r : DNSProviderRoute53)
  (fqdn value : string) (ttl : Z) (err : error) :
  (getHostedZoneID r fqdn).1.2 = Some err ->
  CreateTXTRecord r fqdn value ttl = (Some err, (getHostedZoneID r fqdn).2) /\
  RemoveTXTRecord r fqdn value ttl = (Some err, (getHostedZoneID r fqdn).2) /\
  submitted (client (getHostedZoneID r fqdn).2) = submitted (client r) /\
  verdicts (client (getHostedZoneID r fqdn).2) = verdicts (client r).
Proof.
  intros H. unfold CreateTXTRecord, RemoveTXTRecord, changeRecord.
  destruct (ListHostedZones_client (client r)) as (Hs & Hv & _).
  pose proof (getHostedZoneID_provider r fqdn) as Hp.
  destruct (getHostedZoneID r fqdn) as [[id e] r']. simpl in H, Hp. subst e r'.
  simpl. by rewrite Hs, Hv.
Qed.

Lemma getHostedZoneID_longest_matching_zone_witness :
  exists zone,
    zone ∈ demo_zones /\ ID zone = "Z2" /\ "Z2" <> "" /\
    (exists p, "_acme-challenge.www.sub.example.com." = p +:+ Name zone) /\
    Name zone <> "" /\
    Forall (fun z => (exists p, "_acme-challenge.www.sub.example.com." = p +:+ Name z) ->
                     String.length (Name z) <= String.length (Name zone)) demo_zones.
Proof.
  apply (getHostedZoneID_longest_matching_zone (demo_provider [demo_zones])).
  - reflexivity.
  - reflexivity.
Defined.

Lemma getHostedZoneID_finds_zone_iff_one_serves_witness :
  exists id,
    (getHostedZoneID (demo_provider [demo_zones]) "_acme-challenge.example.org.").1 =
      (id, None).
Proof.
  destruct (getHostedZoneID_finds_zone_iff_one_serves (demo_provider [demo_zones])
              "_acme-challenge.example.org." demo_zones) as [H _].
  - reflexivity.
  - repeat constructor; discriminate.
  - apply H. reflexivity.
Defined.

Lemma RemoveTXTRecord_after_CreateTXTRecord_witness :
  submitted (client
    (RemoveTXTRecord
       (CreateTXTRecord (demo_provider [demo_zones; later_zones])
          "_acme-challenge.sub.example.com." "token" 120).2
       "_acme-challenge.sub.example.com." "token" 120).2) =
    [] ++ [("Z2", txt_change "UPSERT" "_acme-challenge.sub.example.com." "token" 120);
           ("Z1", txt_change "DELETE" "_acme-challenge.sub.example.com." "token" 120)].
Proof.
  apply (RemoveTXTRecord_after_CreateTXTRecord (demo_provider [demo_zones; later_zones])
           "_acme-challenge.sub.example.com." "token" "Z2" "Z1" 120).
  - reflexivity.
  - reflexivity.
Defined.

Lemma TXT_record_calls_without_zone_submit_nothing_witness :
  CreateTXTRecord (demo_provider [demo_zones]) "_acme-challenge.example.net" "token" 120 =
    (Some (errorString ("No Route53 zone found for domain " +:+ "_acme-challenge.example.net")),
     (getHostedZoneID (demo_provider [demo_zones]) "_acme-challenge.example.net").2) /\
  RemoveTXTRecord (demo_provider [demo_zones]) "_acme-challenge.example.net" "token" 120 =
    (Some (errorString ("No Route53 zone found for domain " +:+ "_acme-challenge.example.net")),
     (getHostedZoneID (demo_provider [demo_zones]) "_acme-challenge.example.net").2) /\
  submitted (client (getHostedZoneID (demo_provider [demo_zones])
                       "_acme-challenge.example.net").2) =
    submitted (client (demo_provider [demo_zones])) /\
  verdicts (client (getHostedZoneID (demo_provider [demo_zones])
                      "_acme-challenge.example.net").2) =
    verdicts (client (demo_provider [demo_zones])).
Proof.
  apply (TXT_record_calls_without_zone_submit_nothing (demo_provider [demo_zones])).
  reflexivity.
Defined.

End Route53Facts.

(** ** The pool over many calls (acme/jws.go) *)

Module PoolFacts.
Import Http Messages World Jws Client GoStrings Regexp Spec Agreement Vocabulary.

Lemma store_nonces (j : jws) (resps : list Response) :
  store j resps =
    mkJws (privKey j) (nonces j ++ List.filter nonempty (map nonce_of resps)).
Proof.
  revert j. induction resps as [| resp resps IH]; intros j; simpl.
  - rewrite app_nil_r. by destruct j.
  - unfold store in *. simpl. rewrite IH. unfold getNonceFromResponse, nonce_of, nonempty.
    case_decide as Hn; simpl.
    + rewrite Hn. done.
    + apply String.eqb_neq in Hn. rewrite Hn. simpl. by rewrite <- app_assoc.
Qed.

Lemma draw_all (key : option PrivateKey) (ns added : list string) :
  draw (length added) (mkJws key (ns ++ added)) = (rev added, mkJws key ns).
Proof.
  induction added as [| x added IH] using rev_ind; simpl.
  - by rewrite app_nil_r.
  - rewrite length_app, Nat.add_1_r. simpl.
    rewrite app_assoc, JwsFacts.Nonce_snoc, IH. by rewrite rev_unit.
Qed.

(** X25. After [getNonceFromResponse] saw any responses, the pool holds
    what it held before followed by the non-empty nonces of the responses in
    the order they came, and as many calls of [Nonce] return these nonces in
    the reverse order and leave the object as it was before. *)
Theorem stored_nonces_are_drawn_last_in_first_out (j : jws) (resps : list Response) :
  let added := List.filter nonempty (map nonce_of resps) in
  nonces (store j resps) = nonces j ++ added /\
  draw (length added) (store j resps) = (rev added, j).
Proof.
  intros added. rewrite store_nonces. split; [done |].
  subst added. rewrite draw_all. by destruct j.
Qed.

Section WithLib.
Context `{L : Lib}.

Lemma Forall_removelast {A : Type} (P : A -> Prop) (l : list A) :
  Forall P l -> Forall P (removelast l).
Proof.
  induction 1 as [| x l Hx Hl IH]; simpl; [constructor |].
  destruct l; [constructor | by constructor].
Qed.

Lemma Forall_last {A : Type} (P : A -> Prop) (l : list A) (d : A) :
  l <> [] -> Forall P l -> P (List.last l d).
Proof.
  intros Hne H. induction H as [| x l Hx Hl IH]; [done |].
  destruct l; [done |]. apply IH. done.
Qed.

(** X26. A pool without an empty nonce stays so under
    [getNonceFromResponse], under [Nonce] and under a whole [post], and a
    nonce that [Nonce] returns from it is not empty. *)
Theorem pool_never_holds_an_empty_nonce (j : jws) :
  Forall (fun n => n <> "") (nonces j) ->
  (forall resp, Forall (fun n => n <> "") (nonces (getNonceFromResponse j resp).2)) /\
  (forall n j', Nonce j = ((n, None), j') ->
     n <> "" /\ Forall (fun n => n <> "") (nonces j')) /\
  (forall url content s, the_jws s = j ->
     Forall (fun n => n <> "") (nonces (the_jws (post url content s).2))).
Proof.
  intros H. split; [| split].
  - intros resp. unfold getNonceFromResponse. case_decide; simpl; [done |].
    apply Forall_app. split; [done |]. by constructor.
  - intros n j'. unfold Nonce.
    destruct (nonces j) as [| x xs] eqn:E; [done |].
    cbn [length Nat.eqb]. intros [= <- <-]. split.
    + by apply (Forall_last (fun n => n <> "") (x :: xs)).
    + by apply (Forall_removelast (fun n => n <> "") (x :: xs)).
  - intros url content [j0 w tr]. simpl. intros ->. destruct j as [key ns]. simpl in H.
    unfold post, getNonce, signContent, jose_Sign, on_jws, http_Head, http_Post,
      next_reply, reply_result, get_jws, put_jws, emit, deref, lift,
      getNonceFromResponse, Nonce, set_nonces;
    unfold mbind, M_bind, mret, M_ret; simpl.
    destruct ns as [| n ns]; simpl.
    + destruct w as [| [r | e] w]; simpl; [done | | done].
      case_decide; simpl; [done |].
      destruct (jose_NewSigner key); simpl; [by repeat constructor |].
      destruct (jose_seal key _ content); simpl; [| done].
      destruct w as [| [r' | e'] w]; simpl; [done | | done].
      case_decide; simpl; [done | by repeat constructor].
    + pose proof (Forall_removelast _ _ H) as Hrem. simpl in Hrem.
      destruct (jose_NewSigner key); simpl; [done |].
      destruct (jose_seal key _ content); simpl; [| done].
      destruct w as [| [r' | e'] w]; simpl; [done | | done].
      case_decide; simpl; [done |].
      apply Forall_app. split; [done | by repeat constructor].
Qed.

End WithLib.

Lemma pool_never_holds_an_empty_nonce_witness :
  Forall (fun n => n <> "")
    (nonces (getNonceFromResponse (mkJws None ["n1"])
               (response 200 [("Replay-Nonce", "")] "")).2).
Proof.
  destruct (pool_never_holds_an_empty_nonce (L := demo_lib) (mkJws None ["n1"]))
    as (H & _).
  - repeat constructor. discriminate.
  - apply H.
Defined.

End PoolFacts.

(** ** The URLs of the link map (acme/client.go) *)

Module LinkValueFacts.
Import Http Messages World Jws Client GoStrings Regexp Spec Agreement Vocabulary.

Lemma all_bytes_filter_bytes (p : ascii -> bool) (s : string) :
  all_bytes p (filter_bytes p s) = true.
Proof. induction s as [| a s IH]; simpl; [done |]. destruct (p a) eqn:E; simpl; by rewrite ?E. Qed.

Lemma all_bytes_Split (p : ascii -> bool) (s piece : string) (sep : ascii) :
  all_bytes p s = true -> piece ∈ Split s sep -> all_bytes p piece = true.
Proof.
  revert piece. induction s as [| a s IH]; intros piece; simpl.
  - intros _ ->%list_elem_of_singleton. done.
  - intros [Ha Hs]%andb_prop. destruct (Ascii.eqb a sep).
    + intros [-> | H]%elem_of_cons; [done | by apply IH].
    + destruct (Split s sep) as [| p0 ps] eqn:E.
      * intros ->%list_elem_of_singleton. simpl. by rewrite Ha.
      * intros [-> | H]%elem_of_cons.
        -- simpl. rewrite Ha. apply IH; [done | left].
        -- apply IH; [done | by right].
Qed.

Lemma no_separator_Split (s piece : string) (sep : ascii) :
  piece ∈ Split s sep -> all_bytes (fun c => negb (Ascii.eqb c sep)) piece = true.
Proof.
  revert piece. induction s as [| a s IH]; intros piece; simpl.
  - intros ->%list_elem_of_singleton. done.
  - destruct (Ascii.eqb a sep) eqn:Ea.
    + intros [-> | H]%elem_of_cons; [done | by apply IH].
    + destruct (Split s sep) as [| p0 ps] eqn:E.
      * intros ->%list_elem_of_singleton. simpl. by rewrite Ea.
      * intros [-> | H]%elem_of_cons.
        -- simpl. rewrite Ea. apply IH. left.
        -- apply IH. by right.
Qed.

Lemma all_bytes_and (p q : ascii -> bool) (s : string) :
  all_bytes p s = true -> all_bytes q s = true ->
  all_bytes (fun c => p c && q c) s = true.
Proof.
  induction s as [| a s IH]; simpl; [done |].
  intros [-> Hp]%andb_prop [-> Hq]%andb_prop. simpl. by apply IH.
Qed.

Lemma parseLink_values_clean (linkMap linkMap' : gmap string string) (link : string) :
  map_Forall (fun _ url => clean_url url = true) linkMap ->
  parseLink linkMap link = Ret linkMap' ->
  map_Forall (fun _ url => clean_url url = true) linkMap'.
Proof.
  intros Hm. unfold parseLink.
  set (parts := Split (ReplaceAllString_empty aBrkt link) ";").
  unfold index, mbind, outcome_bind, mret, outcome_ret.
  destruct (parts !! 1) as [part1 |]; [| done].
  destruct (0 <? length (FindStringSubmatch slver part1))%nat;
    [| intros [= <-]; exact Hm].
  destruct (FindStringSubmatch slver part1 !! 2) as [key |]; [| done].
  destruct (parts !! 0) as [part0 |] eqn:E0; [| done].
  intros [= <-]. apply map_Forall_insert_2; [| exact Hm].
  apply list_elem_of_lookup_2 in E0. unfold clean_url, parts in *.
  eapply LinkMapFacts.all_bytes_impl;
    [| apply (all_bytes_and (fun c => negb (aBrkt c)) (fun c => negb (Ascii.eqb c ";")))].
  - intros c [H1 H2]%andb_prop. apply negb_true_iff in H1, H2.
    by rewrite H1, H2.
  - eapply all_bytes_Split; [| exact E0]. apply all_bytes_filter_bytes.
  - by eapply no_separator_Split.
Qed.

(** X27. Every URL in the map that [parseLinks] returns is free of angle
    brackets and of [;]. *)
Theorem parseLinks_urls_have_no_bracket_or_semicolon (links : list string)
  (linkMap : gmap string string) (name url : string) :
  parseLinks links = Ret linkMap ->
  linkMap !! name = Some url ->
  clean_url url = true.
Proof.
  unfold parseLinks. intros Hp Hl.
  assert (map_Forall (fun _ url => clean_url url = true) linkMap) as Hall;
    [| by apply (Hall name url)].
  clear Hl. revert Hp.
  assert (map_Forall (fun _ url => clean_url url = true) (∅ : gmap string string)) as H0
    by apply map_Forall_empty.
  revert H0. generalize (∅ : gmap string string).
  induction links as [| link links IH]; intros m Hm; simpl.
  - by intros [= <-].
  - destruct (parseLink m link) as [m' | |] eqn:E; simpl; try done.
    apply IH. by eapply parseLink_values_clean.
Qed.

Lemma parseLinks_urls_have_no_bracket_or_semicolon_witness :
  clean_url "https://ca.example/new-authz" = true.
Proof.
  apply (parseLinks_urls_have_no_bracket_or_semicolon
           [link_value "https://ca.example/new-authz" "next"]
           {["next" := "https://ca.example/new-authz"]} "next").
  - vm_compute. reflexivity.
  - reflexivity.
Defined.

End LinkValueFacts.
